(** * tswow-orm: the ORM generator of TypeScript2Cxx

    [src/tswow-orm.ts] turns classes decorated as database tables into
    C++ text: per class the query builders and the [save]/[remove]/[Load]
    members ([handleClass]), and one [WriteTables] routine that brings the
    live tables in line with the declared fields ([tableGeneration],
    [writeTableCreationFile]).

    The development has two layers.  The generator itself is embedded as
    functions that return the emitted C++ text (module [Mapper]) or the
    entity model ([Builder]).  The C++ that [tableGeneration] and the
    [save] member emit is embedded by what it does when it runs: a trace
    of calls ([ask], catalog queries, executed statements) computed from
    the declared fields and the rows of the catalog ([Creator], [Flush]). *)

From Stdlib Require Import String Ascii List Bool Arith NArith Lia.
Import ListNotations.
Open Scope string_scope.

(** ** JavaScript string primitives used by the generator *)

Module JS.

Definition is_lower (c : ascii) : bool :=
  ((97 <=? N_of_ascii c) && (N_of_ascii c <=? 122))%N.

Definition is_upper (c : ascii) : bool :=
  ((65 <=? N_of_ascii c) && (N_of_ascii c <=? 90))%N.

Definition upper_char (c : ascii) : ascii :=
  if is_lower c then ascii_of_N (N_of_ascii c - 32) else c.

Definition lower_char (c : ascii) : ascii :=
  if is_upper c then ascii_of_N (N_of_ascii c + 32) else c.

Fixpoint map_chars (f : ascii -> ascii) (s : string) : string :=
  match s with
  | EmptyString => EmptyString
  | String c r => String (f c) (map_chars f r)
  end.

(** [s.toUpperCase()] and [s.toLowerCase()] on text in ASCII: the
    letters A to Z and a to z are mapped, every other character,
    and so every byte of a letter outside ASCII, is left as it is,
    where JavaScript maps every cased letter. The same function stands
    for [std::toupper] applied to every character of a column type in
    the emitted C++. *)
Definition toUpperCase : string -> string := map_chars upper_char.
Definition toLowerCase : string -> string := map_chars lower_char.

(** [s.slice(0,n)] and [s.slice(n)]. *)
Definition slice_to (n : nat) (s : string) : string := substring 0 n s.
Definition slice_from (n : nat) (s : string) : string :=
  substring n (String.length s - n) s.

(** [arr.join(sep)]. *)
Definition join (sep : string) (l : list string) : string :=
  String.concat sep l.

End JS.

(** ** The entity model *)

(** [type DBType = 'world'|'auth'|'characters'] *)
Inductive DBType := world | auth | characters.

Definition DBType_text (d : DBType) : string :=
  match d with
  | world => "world"
  | auth => "auth"
  | characters => "characters"
  end.

(** The keys of [MethodTypes]. *)
Inductive FieldType :=
| T_string | T_uint8 | T_uint16 | T_uint32 | T_uint64
| T_int8 | T_int16 | T_int32 | T_int64
| T_float | T_double | T_int.

Definition FieldType_text (t : FieldType) : string :=
  match t with
  | T_string => "string"
  | T_uint8 => "uint8"
  | T_uint16 => "uint16"
  | T_uint32 => "uint32"
  | T_uint64 => "uint64"
  | T_int8 => "int8"
  | T_int16 => "int16"
  | T_int32 => "int32"
  | T_int64 => "int64"
  | T_float => "float"
  | T_double => "double"
  | T_int => "int"
  end.

Definition MethodTypes : list FieldType :=
  [T_string; T_uint8; T_uint16; T_uint32; T_uint64;
   T_int8; T_int16; T_int32; T_int64; T_float; T_double; T_int].

(** A type slot of the model. The generator casts unchecked text to
    [FieldType]; the one place where the slot can be left without a type
    is the value type of a [TSDBDict] annotation with a single type
    argument ([typeargs[1]] is [undefined]), hence the [option]. *)
Definition TypeSlot := option FieldType.

Definition TypeSlot_text (t : TypeSlot) : string :=
  match t with
  | Some ft => FieldType_text ft
  | None => "undefined"
  end.

(** [x.type == 'string'] *)
Definition is_string (t : TypeSlot) : bool :=
  match t with
  | Some T_string => true
  | _ => false
  end.

(** [class Field] *)
Record Field := mkField {
  name : string;
  type : TypeSlot;
  isPrimaryKey : bool;
  initialization : string
}.

(** The two characters that C++ string literals escape: the double quote
    and the backslash. *)
Definition dq : string := String "034"%char EmptyString.
Definition bs : string := String "092"%char EmptyString.

(** [Field.sqlInitialization()]: the text spliced into the emitted C++
    string literal; for a string field the initializer text loses its
    last character and is wrapped as backslash, text, backslash, quote. *)
Definition sqlInitialization (f : Field) : string :=
  if is_string (type f)
  then bs ++ JS.slice_to (String.length (initialization f) - 1) (initialization f)
          ++ bs ++ dq
  else initialization f.

(** [class DBDictionary] with its [db_name] getter; [owner] is kept as the
    owner's class name, the only part of it that [db_name] reads. *)
Record DBDictionary := mkDict {
  dict_owner : string;
  dict_name : string;
  keyType : TypeSlot;
  valueType : TypeSlot
}.

Definition db_name (d : DBDictionary) : string :=
  JS.toLowerCase (dict_owner d) ++ "_" ++ JS.toLowerCase (dict_name d).

(** [class Entry] *)
Record Entry := mkEntry {
  className : string;
  databaseType : DBType;
  fields : list Field;
  dictionaries : list DBDictionary
}.

(** [entry.fields.filter(x=>x.isPrimaryKey)] *)
Definition primaryKeys (fs : list Field) : list Field := filter isPrimaryKey fs.

(** [queryType] of [handleClass]: the C++ function that runs a statement
    on a logical database. *)
Definition queryType (d : DBType) : string :=
  match d with
  | world => "QueryWorld"
  | auth => "QueryAuth"
  | characters => "QueryCharacters"
  end.

(** ** C++ string literals *)

Module Cxx.

(** The character that a simple escape sequence denotes, by the
    character after the backslash: the control characters for
    [a b t n v f r]; a quote, a question mark and a backslash stand for
    themselves. *)
Definition escaped (d : ascii) : ascii :=
  if Ascii.eqb d "a" then "007"%char
  else if Ascii.eqb d "b" then "008"%char
  else if Ascii.eqb d "t" then "009"%char
  else if Ascii.eqb d "n" then "010"%char
  else if Ascii.eqb d "v" then "011"%char
  else if Ascii.eqb d "f" then "012"%char
  else if Ascii.eqb d "r" then "013"%char
  else d.

(** The characters that open a string literal of C++. *)
Definition is_quote (a : ascii) : bool :=
  Ascii.eqb a "034" || Ascii.eqb a "039".

(** The string that a C++ literal with body [s] denotes, for bodies
    whose escape sequences are the simple ones: a backslash and the
    character after it stand for one character. Octal, hexadecimal and
    universal escapes, which take more characters, are not read; the
    generator writes none, and the texts it splices are taken without
    backslash where a statement depends on their reading. *)
Fixpoint unescape (s : string) : string :=
  match s with
  | EmptyString => EmptyString
  | String c r =>
      if Ascii.eqb c "092" then
        match r with
        | EmptyString => EmptyString
        | String d r' => String (escaped d) (unescape r')
        end
      else String c (unescape r)
  end.

(** Text without quote or backslash denotes itself. *)
Fixpoint plain (s : string) : bool :=
  match s with
  | EmptyString => true
  | String c r => negb (Ascii.eqb c "092") && negb (Ascii.eqb c "034") && plain r
  end.

End Cxx.

(** ** The emitted table creator, as it runs *)

Module Creator.

(** [getReadSQLType]; a slot without a type falls through the switch
    and is rendered by the template as [undefined]. *)
Definition getReadSQLType (t : TypeSlot) : string :=
  match t with
  | Some T_int => "INT(11)"
  | Some T_int8 => "TINYINT(4)"
  | Some T_int16 => "SMALLINT(6)"
  | Some T_int32 => "INT(11)"
  | Some T_int64 => "BIGINT(20)"
  | Some T_uint8 => "TINYINT(3) UNSIGNED"
  | Some T_uint16 => "SMALLINT(5) UNSIGNED"
  | Some T_uint32 => "INT(10) UNSIGNED"
  | Some T_uint64 => "BIGINT(20) UNSIGNED"
  | Some T_float => "FLOAT"
  | Some T_double => "DOUBLE"
  | Some T_string => "TEXT"
  | None => "undefined"
  end.

(** [getWriteSQLType] *)
Definition getWriteSQLType (t : TypeSlot) : string :=
  match t with
  | Some T_int => "INT"
  | Some T_int8 => "TINYINT"
  | Some T_int16 => "SMALLINT"
  | Some T_int32 => "INT"
  | Some T_int64 => "BIGINT"
  | Some T_uint8 => "TINYINT UNSIGNED"
  | Some T_uint16 => "SMALLINT UNSIGNED"
  | Some T_uint32 => "INT UNSIGNED"
  | Some T_uint64 => "BIGINT UNSIGNED"
  | Some T_float => "FLOAT"
  | Some T_double => "DOUBLE"
  | Some T_string => "TEXT"
  | None => "undefined"
  end.

(** [dbid]: the database name with its first letter in upper case. *)
Definition dbid (d : DBType) : string :=
  JS.toUpperCase (JS.slice_to 1 (DBType_text d)) ++ JS.slice_from 1 (DBType_text d).

(** One row of [information_schema.COLUMNS] for the table, with the
    answer of the [KEY_COLUMN_USAGE] query for that column. *)
Record Column := mkColumn {
  COLUMN_NAME : string;
  COLUMN_TYPE : string;
  was_pk : bool
}.

(** What the running creator does that can be seen from outside:
    [ask(msg)], a query whose rows it reads, a statement it executes.
    [Fetch] and [Exec] carry the C++ function called and the SQL. *)
Inductive Event :=
| Ask (msg : string)
| Fetch (fn sql : string)
| Exec (fn sql : string).

(** The local variables of the emitted block: [should_create] and the
    [found_<name>] flags, kept as the list of names whose flag is set. *)
Record Locals := mkLocals {
  should_create : bool;
  found : list string
}.

Definition is_found (n : string) (l : Locals) : bool :=
  existsb (String.eqb n) (found l).

Definition set_found (n : string) (l : Locals) : Locals :=
  mkLocals (should_create l) (n :: found l).

Definition set_should_create (b : bool) (l : Locals) : Locals :=
  mkLocals b (found l).

Section Table.

(** The arguments of [tableGeneration], and [db], the schema name
    that [<dbid>DatabaseInfo()->Database()] returns at run time. *)
Variable tableName : string.
Variable dbtype : DBType.
Variable fields : list Field.
Variable db : string.

Definition Query (sql : string) : Event := Exec ("Query" ++ dbid dbtype) sql.

(** *** The statements *)

Definition columns_sql : string :=
  "SELECT * from `information_schema`.`COLUMNS` WHERE `TABLE_SCHEMA`= "
    ++ dq ++ db ++ dq ++ " AND `TABLE_NAME` = " ++ dq ++ tableName ++ dq ++ ";".

Definition key_usage_sql (column : string) : string :=
  "SELECT * from `information_schema`.`KEY_COLUMN_USAGE` WHERE `CONSTRAINT_SCHEMA` = "
    ++ dq ++ db ++ dq ++ " and `TABLE_NAME` = " ++ dq ++ tableName ++ dq
    ++ " and `COLUMN_NAME` = " ++ dq ++ column ++ dq ++ " ;".

Definition DropColumn (column : string) : Event :=
  Query ("ALTER TABLE `" ++ tableName ++ "` DROP `" ++ column ++ "`;").

Definition AddColumn (column sqltype : string) : Event :=
  Query ("ALTER TABLE `" ++ tableName ++ "` ADD `" ++ column ++ "` " ++ sqltype ++ ";").

Definition ModifyColumnType (x : Field) : Event :=
  Query ("ALTER TABLE `" ++ tableName ++ "` MODIFY `" ++ name x ++ "` "
           ++ getWriteSQLType (type x) ++ ";").

Definition DropTableIfExists : Event :=
  Query ("DROP TABLE IF EXISTS `" ++ tableName ++ "`;").

Definition CreateTable : Event :=
  Query ("CREATE TABLE `" ++ tableName ++ "` ("
           ++ String.concat "" (map (fun f => "`" ++ name f ++ "` "
                                          ++ getWriteSQLType (type f) ++ ", ") fields)
           ++ "PRIMARY KEY ("
           ++ JS.join "," (map name (primaryKeys fields))
           ++ "));").

Definition BackfillDefault (x : Field) : Event :=
  Query ("UPDATE `" ++ tableName ++ "` SET " ++ name x ++ " = "
           ++ Cxx.unescape (sqlInitialization x)
           ++ " WHERE " ++ name x ++ " IS NULL;").

Definition changed_msg (column type' : string) (x : Field) : string :=
  tableName ++ ":" ++ column ++ " changed type from " ++ type'
    ++ " to " ++ TypeSlot_text (type x).

(** *** The body of the [do] loop *)

(** The block under [if (column == "<x.name>")]. The result says
    whether the block left the loop through [break]. *)
Definition matched (x : Field) (c : Column) (l : Locals)
  : list Event * Locals * bool :=
  let column := COLUMN_NAME c in
  let l := set_found (name x) l in
  let type' := JS.toUpperCase (COLUMN_TYPE c) in
  if negb (String.eqb type' (getReadSQLType (type x))) then
    if is_string (type x) then
      ([Ask (changed_msg column type' x);
        DropColumn column;
        AddColumn column "TEXT"], l, false)
    else if String.eqb type' "TEXT" then
      ([Ask (changed_msg column type' x);
        DropColumn column;
        AddColumn column (getWriteSQLType (type x))], l, false)
    else if was_pk c then
      ([Ask (changed_msg column type' x
               ++ " and was a primary key (whole db will be destroyed)")],
       set_should_create true l, true)
    else
      ([Ask (changed_msg column type' x); ModifyColumnType x], l, false)
  else ([], l, false).

(** The final [else] of the chain: no declared field has the name. *)
Definition removed (c : Column) (l : Locals) : list Event * Locals * bool :=
  ([Ask (tableName ++ ":" ++ COLUMN_NAME c ++ " was removed");
    DropColumn (COLUMN_NAME c)], l, false).

(** The [if .. else if .. else] chain, one test per declared field in
    declaration order. *)
Fixpoint chain (fs : list Field) (c : Column) (l : Locals)
  : list Event * Locals * bool :=
  match fs with
  | [] => removed c l
  | x :: rest =>
      if String.eqb (COLUMN_NAME c) (name x) then matched x c l
      else chain rest c l
  end.

(** One turn of the loop: the key-usage query, then the chain. *)
Definition turn (c : Column) (l : Locals) : list Event * Locals * bool :=
  let '(evs, l', brk) := chain fields c l in
  (Fetch "QueryWorld" (key_usage_sql (COLUMN_NAME c)) :: evs, l', brk).

(** [do { .. } while(rows->GetRow());] over the rows still to read. *)
Fixpoint loop (rows : list Column) (l : Locals) : list Event * Locals :=
  match rows with
  | [] => ([], l)
  | c :: rest =>
      let '(evs, l', brk) := turn c l in
      if brk then (evs, l')
      else let '(evs', l'') := loop rest l' in ((evs ++ evs')%list, l'')
  end.

(** *** After the loop *)

(** [if( !should_create && !found_<x.name> )], once per field. *)
Definition missing_one (x : Field) (l : Locals) : list Event * Locals :=
  if negb (should_create l) && negb (is_found (name x) l) then
    if isPrimaryKey x then
      ([Ask (tableName ++ ": new primary key " ++ name x
               ++ " missing, need to rebuild database.")],
       set_should_create true l)
    else ([AddColumn (name x) (getWriteSQLType (type x))], l)
  else ([], l).

Fixpoint missing (fs : list Field) (l : Locals) : list Event * Locals :=
  match fs with
  | [] => ([], l)
  | x :: rest =>
      let '(evs, l') := missing_one x l in
      let '(evs', l'') := missing rest l' in
      ((evs ++ evs')%list, l'')
  end.

(** [if (should_create) { DROP ..; CREATE ..; }] *)
Definition create (l : Locals) : list Event :=
  if should_create l then [DropTableIfExists; CreateTable] else [].

(** The [UPDATE]s that close the block, one per field that is not a
    primary key; they stand after the [if (should_create)] block. *)
Definition backfill : list Event :=
  map BackfillDefault (filter (fun x => negb (isPrimaryKey x)) fields).

(** The whole block for one table, run on the rows of the catalog. *)
Definition tableGeneration (rows : list Column) : list Event * Locals :=
  let l0 := mkLocals true [] in
  let '(evs, l) :=
    match rows with
    | [] => ([], l0)
    | _ :: _ =>
        let l1 := set_should_create false l0 in
        let '(evs1, l2) := loop rows l1 in
        let '(evs2, l3) := missing fields l2 in
        ((evs1 ++ evs2)%list, l3)
    end in
  (Fetch "QueryWorld" columns_sql :: (evs ++ create l ++ backfill)%list, l).

(** The statements that were executed, in order, and the final value
    of [should_create]. *)
Definition is_exec (e : Event) : bool :=
  match e with Exec _ _ => true | _ => false end.

Definition plan (rows : list Column) : list Event :=
  filter is_exec (fst (tableGeneration rows)).

Definition rebuildTriggered (rows : list Column) : bool :=
  should_create (snd (tableGeneration rows)).

Definition asked (rows : list Column) : list Event :=
  filter (fun e => match e with Ask _ => true | _ => false end)
         (fst (tableGeneration rows)).

(** *** Vocabulary for the statements about a run *)

(** The declared field that the chain selects for a column name: the
    first one with that name. *)
Definition find_field (n : string) : option Field :=
  find (fun x => String.eqb n (name x)) fields.

(** The column takes the [break]: it names a declared field that is
    not a string, its type in upper case is neither the read type of
    the field nor TEXT, and the column is in a key. *)
Definition breaks (c : Column) : bool :=
  match find_field (COLUMN_NAME c) with
  | Some x =>
      negb (String.eqb (JS.toUpperCase (COLUMN_TYPE c)) (getReadSQLType (type x)))
      && negb (is_string (type x))
      && negb (String.eqb (JS.toUpperCase (COLUMN_TYPE c)) "TEXT")
      && was_pk c
  | None => false
  end.

(** The statements that the loop executes on [rows], entered as the
    emitted code enters it. *)
Definition loop_steps (rows : list Column) : list Event :=
  filter is_exec (fst (loop rows (mkLocals false []))).

(** The statements executed between the first catalog query and the
    [if (should_create)] block: those of the loop and of the tests
    for missing fields. *)
Definition scan_steps (rows : list Column) : list Event :=
  match rows with
  | [] => []
  | _ :: _ =>
      let '(evs1, l2) := loop rows (mkLocals false []) in
      filter is_exec (evs1 ++ fst (missing fields l2))
  end.

(** Some declared field has the name. *)
Definition declared_name (n : string) : bool :=
  match find_field n with Some _ => true | None => false end.

(** No row of the catalog has the name of the field. *)
Definition absent (x : Field) (rows : list Column) : Prop :=
  forall c, In c rows -> COLUMN_NAME c <> name x.

End Table.

End Creator.

(** ** The emitted query builders *)

Module Mapper.

(** *** C++ concatenations of literals and variables *)

(** An operand of a [+] chain: [JSTR("body")], with [body] as written
    between the quotes, or a variable such as [this->id] or [query]. *)
Inductive atom :=
| Lit (body : string)
| Var (expr : string).

Definition show_atom (a : atom) : string :=
  match a with
  | Lit body => "JSTR(" ++ dq ++ body ++ dq ++ ")"
  | Var expr => expr
  end.

(** The C++ text of the chain, [plus] being the text of the operator as
    the generator spaces it. *)
Definition show (plus : string) (e : list atom) : string :=
  JS.join plus (map show_atom e).

(** What the chain evaluates to when the variables render as [env] says. *)
Definition eval_atom (env : string -> string) (a : atom) : string :=
  match a with
  | Lit body => Cxx.unescape body
  | Var expr => env expr
  end.

Definition eval (env : string -> string) (e : list atom) : string :=
  String.concat "" (map (eval_atom env) e).

(** The generator writes such a chain from inside its first literal:
    text that stays inside the literal, and variables, for which it
    closes the literal and opens the next one. *)
Inductive chunk :=
| T (text : string)
| H (expr : string).

Definition written (plus : string) (c : chunk) : string :=
  match c with
  | T text => text
  | H expr => dq ++ ")" ++ plus ++ expr ++ plus ++ "JSTR(" ++ dq
  end.

Fixpoint cat (f : chunk -> string) (cs : list chunk) : string :=
  match cs with
  | [] => ""
  | c :: r => f c ++ cat f r
  end.

(** [JSTR("] .. [")] around what was written. *)
Definition emitted (plus : string) (cs : list chunk) : string :=
  "JSTR(" ++ dq ++ cat (written plus) cs ++ dq ++ ")".

(** The chain that the written chunks make up. *)
Fixpoint atoms_from (cur : string) (cs : list chunk) : list atom :=
  match cs with
  | [] => [Lit cur]
  | T text :: r => atoms_from (cur ++ text) r
  | H expr :: r => Lit cur :: Var expr :: atoms_from "" r
  end.

Definition atoms (cs : list chunk) : list atom := atoms_from "" cs.

(** [items.join(sep)] on chunk lists. *)
Fixpoint join_chunks (sep : list chunk) (items : list (list chunk)) : list chunk :=
  match items with
  | [] => []
  | [x] => x
  | x :: r => (x ++ sep ++ join_chunks sep r)%list
  end.

(** *** The text that [handleClass] writes *)

Section Emit.

Variable entry : Entry.

Definition pks : list Field := primaryKeys (fields entry).

(** The body of [loadQuery()] (the three [writeString] calls). *)
Definition loadQuery_text : string :=
  ("return JSTR(" ++ dq ++ "SELECT * FROM `" ++ className entry ++ "` WHERE ")
  ++ JS.join " AND "
       (map (fun x => "`" ++ name x ++ "` = " ++ dq ++ ")+this->" ++ name x
                        ++ "+JSTR(" ++ dq) pks)
  ++ (";" ++ dq ++ ");").

(** The body of [saveQuery()]. *)
Definition saveQuery_text : string :=
  ("return JSTR(" ++ dq ++ "INSERT INTO `" ++ JS.toLowerCase (className entry)
     ++ "` VALUES ( ")
  ++ JS.join " , "
       (map (fun x =>
               if is_string (type x)
               then bs ++ dq ++ dq ++ ") + this->" ++ name x ++ " + JSTR(" ++ dq ++ bs ++ dq
               else dq ++ ") + this->" ++ name x ++ " + JSTR(" ++ dq)
            (fields entry))
  ++ ") ON DUPLICATE KEY UPDATE "
  ++ JS.join " , "
       (map (fun x =>
               ("`" ++ name x ++ "` = ")
               ++ (if is_string (type x) then bs ++ dq else "")
               ++ (dq ++ ") + this->" ++ name x ++ " + JSTR(" ++ dq)
               ++ (if is_string (type x) then bs ++ dq else ""))
            (fields entry))
  ++ (";" ++ dq ++ ");").

(** The body of [removeQuery()]. *)
Definition removeQuery_text : string :=
  ("return JSTR(" ++ dq ++ "DELETE FROM `" ++ JS.toLowerCase (className entry)
     ++ "` WHERE ")
  ++ JS.join " AND "
       (map (fun x => "`" ++ name x ++ "` = " ++ dq ++ ")+this->" ++ name x
                        ++ "+JSTR(" ++ dq) pks)
  ++ (";" ++ dq ++ ");").

(** The body of the static [LoadQuery(query)]. *)
Definition LoadQuery_text : string :=
  "return JSTR(" ++ dq ++ "SELECT * from " ++ JS.toLowerCase (className entry)
    ++ " WHERE " ++ dq ++ ") + query + JSTR(" ++ dq ++ ";" ++ dq ++ ");".

(** *** The same bodies, chunk by chunk *)

Definition pk_test (x : Field) : list chunk :=
  [T ("`" ++ name x ++ "` = "); H ("this->" ++ name x)].

Definition loadQuery_chunks : list chunk :=
  (T ("SELECT * FROM `" ++ className entry ++ "` WHERE ")
     :: join_chunks [T " AND "] (map pk_test pks) ++ [T ";"])%list.

Definition inserted (x : Field) : list chunk :=
  if is_string (type x)
  then [T (bs ++ dq); H ("this->" ++ name x); T (bs ++ dq)]
  else [H ("this->" ++ name x)].

Definition updated (x : Field) : list chunk :=
  (T ("`" ++ name x ++ "` = ") :: inserted x)%list.

Definition saveQuery_chunks : list chunk :=
  (T ("INSERT INTO `" ++ JS.toLowerCase (className entry) ++ "` VALUES ( ")
     :: join_chunks [T " , "] (map inserted (fields entry))
     ++ T ") ON DUPLICATE KEY UPDATE "
     :: join_chunks [T " , "] (map updated (fields entry))
     ++ [T ";"])%list.

Definition removeQuery_chunks : list chunk :=
  (T ("DELETE FROM `" ++ JS.toLowerCase (className entry) ++ "` WHERE ")
     :: join_chunks [T " AND "] (map pk_test pks) ++ [T ";"])%list.

Definition LoadQuery_chunks : list chunk :=
  [T ("SELECT * from " ++ JS.toLowerCase (className entry) ++ " WHERE ");
   H "query"; T ";"].

(** *** The SQL that the builders return at run time *)

Definition loadQuery (env : string -> string) : string :=
  eval env (atoms loadQuery_chunks).

Definition saveQuery (env : string -> string) : string :=
  eval env (atoms saveQuery_chunks).

Definition removeQuery (env : string -> string) : string :=
  eval env (atoms removeQuery_chunks).

Definition LoadQuery (env : string -> string) : string :=
  eval env (atoms LoadQuery_chunks).

(** The names spliced into the literals are plain text. *)
Definition plain_names : Prop :=
  Cxx.plain (className entry) = true /\
  Forall (fun x => Cxx.plain (name x) = true) (fields entry).

(** How a field's value stands in the SQL of [saveQuery]. *)
Definition sql_value (env : string -> string) (x : Field) : string :=
  if is_string (type x)
  then dq ++ env ("this->" ++ name x) ++ dq
  else env ("this->" ++ name x).

(** The save statement as the specification words it: the update
    clause holds the fields that are not primary keys. *)
Definition claimed_saveQuery (env : string -> string) : string :=
  "INSERT INTO `" ++ JS.toLowerCase (className entry) ++ "` VALUES ( "
    ++ JS.join " , " (map (sql_value env) (fields entry))
    ++ ") ON DUPLICATE KEY UPDATE "
    ++ JS.join " , "
         (map (fun x => "`" ++ name x ++ "` = " ++ sql_value env x)
              (filter (fun x => negb (isPrimaryKey x)) (fields entry)))
    ++ ";".

(** The load statement as the specification words it: every value of a
    primary key between double quotes. *)
Definition claimed_loadQuery (table : string) (env : string -> string) : string :=
  "SELECT * FROM `" ++ table ++ "` WHERE "
    ++ JS.join " AND "
         (map (fun x => name x ++ " = " ++ dq ++ env ("this->" ++ name x) ++ dq) pks)
    ++ ";".

End Emit.

(** Text after which the rest of a literal is read on its own. *)
Definition closed (t : string) : Prop :=
  forall s, Cxx.unescape (t ++ s) = Cxx.unescape t ++ Cxx.unescape s.

Definition closed_chunk (c : chunk) : Prop :=
  match c with
  | T text => closed text
  | H _ => True
  end.

(** The value of a chunk on its own. *)
Definition value (env : string -> string) (c : chunk) : string :=
  match c with
  | T text => Cxx.unescape text
  | H expr => env expr
  end.

(** The first name between backticks in a statement: its table. *)
Fixpoint upto_backtick (s : string) : option string :=
  match s with
  | EmptyString => None
  | String c r =>
      if Ascii.eqb c "`" then Some EmptyString
      else option_map (String c) (upto_backtick r)
  end.

Fixpoint table_of (s : string) : option string :=
  match s with
  | EmptyString => None
  | String c r => if Ascii.eqb c "`" then upto_backtick r else table_of r
  end.

(** Whether the text has a double quote in it. *)
Fixpoint has_dq (s : string) : bool :=
  match s with
  | EmptyString => false
  | String c r => Ascii.eqb c "034" || has_dq r
  end.

End Mapper.

(** ** Building the entity model *)

Module Builder.

(** [throw new Error(..)], and the [TypeError] of reading a property of
    [undefined]. *)
Inductive Error :=
| InvalidDictType (ta : string)
| InvalidFieldType (t : string)
| StringPrimaryKey
| NotInitialized
| NoPrimaryKey
| TypeError.

Inductive Result (A : Type) :=
| Ok (a : A)
| Throw (e : Error).

Arguments Ok {A} a.
Arguments Throw {A} e.

Definition bind {A B : Type} (r : Result A) (k : A -> Result B) : Result B :=
  match r with
  | Ok a => k a
  | Throw e => Throw e
  end.

Notation "x <- r ;; k" := (bind r (fun x => k))
  (at level 61, r at next level, right associativity).

(** What [handleClass] reads of a class member and of the class. *)
Record Member := mkMember {
  is_property : bool;
  member_decorators : list string;
  member_name : string;
  member_type : option string;
  member_initializer : option string
}.

Record ClassDeclaration := mkClass {
  class_decorators : list string;
  class_name : string;
  members : list Member
}.

(** [s.split(sep)] for a separator of one character. *)
Fixpoint split (sep : ascii) (s : string) : list string :=
  match s with
  | EmptyString => [EmptyString]
  | String c r =>
      if Ascii.eqb c sep then EmptyString :: split sep r
      else match split sep r with
           | h :: t => String c h :: t
           | [] => [String c EmptyString]
           end
  end.

(** [Object.keys(MethodTypes).includes(s)], with the key found. *)
Definition parse_type (s : string) : option FieldType :=
  find (fun t => String.eqb (FieldType_text t) s) MethodTypes.

(** The [switch] over the class decorators: the last table decorator
    decides. *)
Definition table_decorator (acc : option DBType) (ft : string) : option DBType :=
  if String.eqb ft "@WorldTable" then Some world
  else if String.eqb ft "@AuthTable" then Some auth
  else if String.eqb ft "@CharactersTable" then Some characters
  else acc.

(** [isField] and [isPrimaryKey] of a member. *)
Definition isField (m : Member) : bool :=
  existsb (fun d => String.eqb d "@Field" || String.eqb d "@PrimaryKey")
          (member_decorators m).

Definition isPrimaryKeyMember (m : Member) : bool :=
  existsb (fun d => String.eqb d "@PrimaryKey") (member_decorators m).

(** The loop over [typeargs] that rejects unknown type names. *)
Fixpoint check_typeargs (typeargs : list string) : Result unit :=
  match typeargs with
  | [] => Ok tt
  | ta :: r =>
      match parse_type ta with
      | Some _ => check_typeargs r
      | None => Throw (InvalidDictType ta)
      end
  end.

(** [typeargs[i] as FieldType] *)
Definition typearg (typeargs : list string) (i : nat) : TypeSlot :=
  match nth_error typeargs i with
  | Some ta => parse_type ta
  | None => None
  end.

(** The body of [node.members.forEach], on the fields and dictionaries
    pushed so far. *)
Definition handleMember (owner : string) (m : Member)
  (acc : list Field * list DBDictionary) : Result (list Field * list DBDictionary) :=
  if negb (is_property m) then Ok acc
  else if negb (isField m) then Ok acc
  else
    match member_type m with
    | None => Throw TypeError
    | Some ty =>
        if String.prefix "TSDBDict" ty then
          match nth_error (split "<" ty) 1 with
          | None => Throw TypeError
          | Some inner =>
              let typeargs := split "," (hd EmptyString (split ">" inner)) in
              _ <- check_typeargs typeargs ;;
              Ok (fst acc,
                  (snd acc ++ [mkDict owner (member_name m)
                                      (typearg typeargs 0) (typearg typeargs 1)])%list)
          end
        else
          match parse_type ty with
          | None => Throw (InvalidFieldType ty)
          | Some t =>
              if is_string (Some t) && isPrimaryKeyMember m then Throw StringPrimaryKey
              else
                match member_initializer m with
                | None => Throw NotInitialized
                | Some defValue =>
                    Ok ((fst acc ++ [mkField (member_name m) (Some t)
                                             (isPrimaryKeyMember m) defValue])%list,
                        snd acc)
                end
          end
    end.

Fixpoint handleMembers (owner : string) (ms : list Member)
  (acc : list Field * list DBDictionary) : Result (list Field * list DBDictionary) :=
  match ms with
  | [] => Ok acc
  | m :: r => acc' <- handleMember owner m acc ;; handleMembers owner r acc'
  end.

(** The model part of [handleClass]: [None] when the class is not a
    table, the registered entry otherwise. *)
Definition handleClass (node : ClassDeclaration) : Result (option Entry) :=
  match fold_left table_decorator (class_decorators node) None with
  | None => Ok None
  | Some databaseType =>
      acc <- handleMembers (class_name node) (members node) ([], []) ;;
      match primaryKeys (fst acc) with
      | [] => Throw NoPrimaryKey
      | _ :: _ => Ok (Some (mkEntry (class_name node) databaseType (fst acc) (snd acc)))
      end
  end.

(** The fields that [writeTableCreationFile] passes for the table of a
    dictionary. *)
Definition dictFields (entry : Entry) (x : DBDictionary) : list Field :=
  (primaryKeys (fields entry)
     ++ [mkField "map_key" (keyType x) true "";
         mkField "map_value" (valueType x) false
                 (if is_string (valueType x) then dq ++ dq else "0")])%list.

(** The tables of an entry: the arguments of the calls to
    [tableGeneration], its own table first. *)
Definition tables (entry : Entry) : list (string * list Field) :=
  (className entry, fields entry)
    :: map (fun x => (db_name x, dictFields entry x)) (dictionaries entry).

(** What holds of the fields and dictionaries pushed so far. *)
Definition sound (acc : list Field * list DBDictionary) : Prop :=
  (forall f, In f (fst acc) -> isPrimaryKey f = true -> is_string (type f) = false) /\
  (forall x, In x (snd acc) -> exists t, keyType x = Some t).

End Builder.

(** ** The emitted [save()], as it runs *)

Module Flush.

(** A statement sent by [save()]: the row itself, the upsert of a dirty
    key, the delete of an erased key; [table] is [db_name]. *)
Inductive Stmt :=
| SaveRow
| Upsert (table key value : string)
| Erase (table key : string).

(** Modelled from the spec: the state of a [TSDBDict] (its C++ class is
    not in the sources): the entries, each with its value and its
    [_dirty] mark, and the erased keys. *)
Record Dict := mkDictState {
  entries : list (string * (string * bool));
  erases : list string
}.

(** Modelled from the spec: [clear()] of a [TSDBDict] empties the dirty
    and the erased keys and keeps the contents. *)
Definition clear (d : Dict) : Dict :=
  mkDictState (map (fun kv => (fst kv, (fst (snd kv), false))) (entries d)) [].

Definition dirtyKeys (d : Dict) : list string :=
  map fst (filter (fun kv => snd (snd kv)) (entries d)).

(** The dictionaries of the instance, by member name. *)
Definition Store := string -> Dict.

Definition update (st : Store) (n : string) (d : Dict) : Store :=
  fun m => if String.eqb m n then d else st m.

(** Modelled from the spec: a statement that fails ends the run (the
    query functions are not in the sources). A computation returns the
    statements sent, the store, and its result unless a statement
    failed. *)
Definition M (A : Type) : Type := Store -> list Stmt * Store * option A.

Definition ret {A : Type} (a : A) : M A := fun st => ([], st, Some a).

Definition bind {A B : Type} (m : M A) (k : A -> M B) : M B :=
  fun st =>
    match m st with
    | (sent, st', Some a) =>
        match k a st' with
        | (sent', st'', r) => ((sent ++ sent')%list, st'', r)
        end
    | (sent, st', None) => (sent, st', None)
    end.

Notation "m1 ;; m2" := (bind m1 (fun _ => m2))
  (at level 61, right associativity).

Fixpoint for_each {A : Type} (l : list A) (body : A -> M unit) : M unit :=
  match l with
  | [] => ret tt
  | a :: r => body a ;; for_each r body
  end.

Section Save.

(** Which statements the database accepts. *)
Variable accepts : Stmt -> bool.

Definition send (s : Stmt) : M unit :=
  fun st => ([s], st, if accepts s then Some tt else None).

(** The statements that reach the database when [l] is sent in order,
    up to the first one that fails, and whether none failed. *)
Fixpoint attempt (l : list Stmt) : list Stmt * bool :=
  match l with
  | [] => ([], true)
  | s :: r =>
      if accepts s then (s :: fst (attempt r), snd (attempt r))
      else ([s], false)
  end.

Definition read (n : string) : M Dict := fun st => ([], st, Some (st n)).

Definition clear_dict (n : string) : M unit :=
  fun st => ([], update st n (clear (st n)), Some tt).

(** The upserts that the first loop sends and the deletes that the
    second one sends. *)
Definition upserts (x : DBDictionary) (d : Dict) : list Stmt :=
  map (fun kv => Upsert (db_name x) (fst kv) (fst (snd kv)))
      (filter (fun kv => snd (snd kv)) (entries d)).

Definition erasures (x : DBDictionary) (d : Dict) : list Stmt :=
  map (Erase (db_name x)) (erases d).

(** The body of the first loop: [if(!itr->second._dirty) continue;] and
    then the upsert. *)
Definition upsert_dirty (x : DBDictionary) (kv : string * (string * bool)) : M unit :=
  if negb (snd (snd kv)) then ret tt
  else send (Upsert (db_name x) (fst kv) (fst (snd kv))).

(** The three statements emitted per dictionary: the loop over the
    entries, the loop over the erased keys, and [clear()]. *)
Definition flush (x : DBDictionary) : M unit :=
  bind (read (dict_name x)) (fun d =>
    for_each (entries d) (upsert_dirty x) ;;
    for_each (erases d) (fun k => send (Erase (db_name x) k)) ;;
    clear_dict (dict_name x)).

(** [void save()] *)
Definition save (entry : Entry) : M unit :=
  send SaveRow ;;
  for_each (dictionaries entry) flush.

End Save.

(** All the statements of a dictionary, in the order of [flush]. *)
Definition statements (x : DBDictionary) (st : Store) : list Stmt :=
  (upserts x (st (dict_name x)) ++ erasures x (st (dict_name x)))%list.

Definition clean (d : Dict) : Prop := dirtyKeys d = [] /\ erases d = [].

End Flush.

(** ** Sample entities *)

Module Sample.
Import Creator.

(** [Player { id: uint32 (primary key) = 0; name: string = <empty>; gold: uint32 = 0 }] *)
Definition Player_fields : list Field :=
  [ mkField "id" (Some T_uint32) true "0";
    mkField "name" (Some T_string) false (dq ++ dq);
    mkField "gold" (Some T_uint32) false "0" ].

Definition Player : Entry := mkEntry "Player" world Player_fields [].

(** Two primary keys, the second one not yet in the table. *)
Definition Member_fields : list Field :=
  [ mkField "id" (Some T_uint32) true "0";
    mkField "guild" (Some T_uint32) true "0";
    mkField "rank" (Some T_uint8) false "0" ].

Definition id_field : Field := mkField "id" (Some T_uint32) true "0".
Definition rank_field : Field := mkField "rank" (Some T_uint8) false "0".

Definition id_ok : Column := mkColumn "id" "int(10) unsigned" true.
Definition id_drifted : Column := mkColumn "id" "bigint(20) unsigned" true.
Definition legacy : Column := mkColumn "legacy" "int(11)" false.

(** A catalog with a column that is no longer declared, then the primary
    key in a type that is not the expected one. *)
Definition drifted_rows : list Column := [legacy; id_drifted].

(** A catalog with a column that is no longer declared, then the primary
    key as expected. *)
Definition stale_rows : list Column := [legacy; id_ok].

(** The members of an instance, as they render in a statement. *)
Definition env_sample (v : string) : string :=
  if String.eqb v "this->id" then "7"
  else if String.eqb v "this->name" then "Bob"
  else if String.eqb v "this->gold" then "5"
  else "`id` > 3".

(** [@CharactersTable class Guild { @PrimaryKey id: uint32 = 0;
    @Field motd: string = <empty>; @Field tags: TSDBDict<string,uint32> }] *)
Definition Guild_class : Builder.ClassDeclaration :=
  Builder.mkClass ["@CharactersTable"] "Guild"
    [ Builder.mkMember true ["@PrimaryKey"] "id" (Some "uint32") (Some "0");
      Builder.mkMember true ["@Field"] "motd" (Some "string") (Some (dq ++ dq));
      Builder.mkMember true ["@Field"] "tags" (Some "TSDBDict<string,uint32>") None ].

(** The entry that [handleClass] registers for [Guild]. *)
Definition Guild : Entry :=
  mkEntry "Guild" characters
    [ mkField "id" (Some T_uint32) true "0";
      mkField "motd" (Some T_string) false (dq ++ dq) ]
    [ mkDict "Guild" "tags" (Some T_string) (Some T_uint32) ].

(** An entity with two dictionaries, and an instance of it: [items] has
    a dirty and a clean entry and an erased key, [notes] a dirty entry. *)
Definition Bag : Entry :=
  mkEntry "Bag" characters [mkField "id" (Some T_uint32) true "0"]
    [ mkDict "Bag" "items" (Some T_uint32) (Some T_uint32);
      mkDict "Bag" "notes" (Some T_uint32) (Some T_string) ].

Definition Bag_store : Flush.Store :=
  fun n =>
    if String.eqb n "items"
    then Flush.mkDictState [("1", ("5", true)); ("2", ("6", false))] ["3"]
    else Flush.mkDictState [("9", ("x", true))] [].

(** A database that refuses every delete. *)
Definition no_deletes (s : Flush.Stmt) : bool :=
  match s with
  | Flush.Erase _ _ => false
  | _ => true
  end.

End Sample.


(** * Further parts of the generator *)

(** ** The table creator on catalogs that need little or nothing *)

Module Drift.
Import Creator.

(** [ask(..)] calls among the events. *)
Definition is_ask (e : Event) : bool :=
  match e with Ask _ => true | _ => false end.

(** The catalog is in line with the declaration: it has rows, every row
    names a declared field and has, in upper case, the read type of the
    field, and every declared field has a row. *)
Definition in_sync (fields : list Field) (rows : list Column) : Prop :=
  rows <> [] /\
  (forall c, In c rows ->
     exists x, find_field fields (COLUMN_NAME c) = Some x /\
               JS.toUpperCase (COLUMN_TYPE c) = getReadSQLType (type x)) /\
  (forall x, In x fields -> exists c, In c rows /\ COLUMN_NAME c = name x).

(** The key-usage queries of a loop that reads all of [rows]. *)
Definition key_usage_queries (tableName db : string) (rows : list Column) : list Event :=
  map (fun c => Fetch "QueryWorld" (key_usage_sql tableName db (COLUMN_NAME c))) rows.

(** A statement that changes the type of a column in place. *)
Definition is_modify (tableName : string) (e : Event) : bool :=
  match e with
  | Exec _ sql => String.prefix ("ALTER TABLE `" ++ tableName ++ "` MODIFY ") sql
  | _ => false
  end.

(** The ADD statements for the declared fields that are not primary keys
    and have no row in the catalog, in declaration order. *)
Definition additions (tableName : string) (dbtype : DBType) (fields : list Field)
  (rows : list Column) : list Event :=
  map (fun x => AddColumn tableName dbtype (name x) (getWriteSQLType (type x)))
      (filter (fun x => negb (isPrimaryKey x)
                        && negb (existsb (fun c => String.eqb (name x) (COLUMN_NAME c)) rows))
              fields).

(** The text without what stands between parentheses, parentheses
    included. *)
Fixpoint drop_parens (inside : bool) (s : string) : string :=
  match s with
  | EmptyString => EmptyString
  | String c r =>
      if Ascii.eqb c "(" then drop_parens true r
      else if Ascii.eqb c ")" then drop_parens false r
      else if inside then drop_parens inside r
      else String c (drop_parens inside r)
  end.

End Drift.

(** ** The members of a class, as [handleClass] reads them *)

Module Members.
Import Builder.

(** A member that [handleClass] does not skip: a property with [@Field]
    or [@PrimaryKey]. *)
Definition is_decorated (m : Member) : bool := is_property m && isField m.

(** [type.startsWith('TSDBDict')] *)
Definition is_dict_member (m : Member) : bool :=
  match member_type m with
  | Some ty => String.prefix "TSDBDict" ty
  | None => false
  end.

(** The type arguments read off a dictionary annotation. *)
Definition typeargs_of (m : Member) : list string :=
  match member_type m with
  | Some ty => split "," (hd EmptyString (split ">" (nth 1 (split "<" ty) EmptyString)))
  | None => []
  end.

(** The [Field] and the [DBDictionary] that are pushed for a member. *)
Definition as_field (m : Member) : Field :=
  mkField (member_name m)
          (match member_type m with Some ty => parse_type ty | None => None end)
          (isPrimaryKeyMember m)
          (match member_initializer m with Some d => d | None => EmptyString end).

Definition as_dict (owner : string) (m : Member) : DBDictionary :=
  mkDict owner (member_name m) (typearg (typeargs_of m) 0) (typearg (typeargs_of m) 1).

(** What a table decorator says, if the text is one. *)
Definition table_db (ft : string) : option DBType := table_decorator None ft.

End Members.

(** ** The statements for dictionaries in [save()] and [Load] *)

Module MapSql.

(** *** C++ operands of the chains in [save()] and [Load] *)

(** An operand of a [+] chain of plain C++ strings: string literals
    written one after the other (which C++ reads as one literal), an
    expression such as [std::to_string(id)], or an operand under a unary
    plus. *)
Inductive operand :=
| Text (bodies : list string)
| Call (expr : string)
| UPlus (o : operand).

Fixpoint show_operand (o : operand) : string :=
  match o with
  | Text bodies => String.concat "" (map (fun b => dq ++ b ++ dq) bodies)
  | Call expr => expr
  | UPlus o' => "+ " ++ show_operand o'
  end.

Fixpoint eval_operand (env : string -> string) (o : operand) : string :=
  match o with
  | Text bodies => String.concat "" (map Cxx.unescape bodies)
  | Call expr => env expr
  | UPlus o' => eval_operand env o'
  end.

Definition show_chain (e : list operand) : string :=
  JS.join " + " (map show_operand e).

Definition eval_chain (env : string -> string) (e : list operand) : string :=
  String.concat "" (map (eval_operand env) e).

(** [wrap(str, is_string)]: in the template the two escaped quotes are
    plain quotes, so the string case writes three quotes on each side. *)
Definition wrap (str : string) (is_str : bool) : string :=
  if is_str
  then "+ " ++ dq ++ dq ++ dq ++ " + std::string(" ++ str ++ ") + " ++ dq ++ dq ++ dq
  else "std::to_string(" ++ str ++ ")".

(** The operand that [wrap] writes: for a string, an empty literal, the
    literal that holds the text of the C++ expression, and an empty
    literal, under a unary plus. *)
Definition wrap_operand (str : string) (is_str : bool) : operand :=
  if is_str
  then UPlus (Text [EmptyString; " + std::string(" ++ str ++ ") + "; EmptyString])
  else Call ("std::to_string(" ++ str ++ ")").

(** What the operand of [wrap] contributes to the statement. *)
Definition wrapped (env : string -> string) (str : string) (is_str : bool) : string :=
  if is_str then " + std::string(" ++ str ++ ") + "
  else env ("std::to_string(" ++ str ++ ")").

(** Text written inside an open literal, and operands for which the
    literal is closed and opened again. *)
Inductive piece :=
| Txt (text : string)
| Opd (o : operand).

Definition put (p : piece) : string :=
  match p with
  | Txt text => text
  | Opd o => dq ++ " + " ++ show_operand o ++ " + " ++ dq
  end.

Fixpoint pcat (f : piece -> string) (ps : list piece) : string :=
  match ps with
  | [] => ""
  | p :: r => f p ++ pcat f r
  end.

Fixpoint operands_from (cur : string) (ps : list piece) : list operand :=
  match ps with
  | [] => [Text [cur]]
  | Txt text :: r => operands_from (cur ++ text) r
  | Opd o :: r => Text [cur] :: o :: operands_from "" r
  end.

Fixpoint pjoin (sep : list piece) (items : list (list piece)) : list piece :=
  match items with
  | [] => []
  | [x] => x
  | x :: r => (x ++ sep ++ pjoin sep r)%list
  end.

Definition pvalue (env : string -> string) (p : piece) : string :=
  match p with
  | Txt text => Cxx.unescape text
  | Opd o => eval_operand env o
  end.

Definition closed_piece (p : piece) : Prop :=
  match p with
  | Txt text => Mapper.closed text
  | Opd _ => True
  end.

Section Dictionary.

Variable entry : Entry.
Variable x : DBDictionary.

Definition owner_keys : list Field := primaryKeys (fields entry).
Definition Q : string := queryType (databaseType entry).

(** The statement in the first loop of [save()]. *)
Definition upsert_text : string :=
  Q ++ "(JSTR(" ++ dq ++ "INSERT INTO `" ++ db_name x ++ "` VALUES ("
    ++ JS.join ","
         (map (fun f => dq ++ " + " ++ wrap (name f) (is_string (type f)) ++ " + " ++ dq)
              owner_keys)
    ++ (", " ++ dq ++ " + " ++ wrap "itr->first" (is_string (keyType x))
          ++ " + " ++ dq ++ " , " ++ dq ++ " + "
          ++ wrap "itr->second._value" (is_string (valueType x)) ++ " + " ++ dq)
    ++ ")"
    ++ " ON DUPLICATE KEY UPDATE "
    ++ (" `map_value` = " ++ dq ++ " + ")
    ++ wrap "itr->second._value" (is_string (valueType x))
    ++ (" + " ++ dq ++ ";" ++ dq ++ "));").

(** The statement in the second loop of [save()]. *)
Definition erase_text : string :=
  (Q ++ "(JSTR(" ++ dq)
    ++ ("DELETE FROM `" ++ db_name x ++ "`")
    ++ " WHERE "
    ++ JS.join " AND "
         (map (fun f => "`" ++ name f ++ "` = " ++ dq ++ " + "
                          ++ wrap (name f) (is_string (type f)) ++ " + " ++ dq)
              owner_keys)
    ++ (" AND `map_key` = " ++ dq ++ " + " ++ wrap "*itr" (is_string (keyType x))
          ++ " + " ++ dq)
    ++ (";" ++ dq ++ "));").

(** The query of [Load] that reads the rows of the dictionary. *)
Definition read_text : string :=
  ("auto " ++ dict_name x ++ "_res =")
    ++ (" " ++ Q ++ "(" ++ dq ++ "SELECT * from `" ++ db_name x ++ "` WHERE")
    ++ (" " ++ JS.join " AND "
          (map (fun f => "`" ++ name f ++ "` = " ++ dq ++ " + "
                           ++ wrap ("obj->" ++ name f) (is_string (type f))
                           ++ " + " ++ dq)
               owner_keys))
    ++ (";" ++ dq ++ ");").

(** The same, piece by piece. *)
Definition upsert_pieces : list piece :=
  (Txt ("INSERT INTO `" ++ db_name x ++ "` VALUES (")
     :: pjoin [Txt ","]
          (map (fun f => [Opd (wrap_operand (name f) (is_string (type f)))]) owner_keys)
     ++ [Txt ", "; Opd (wrap_operand "itr->first" (is_string (keyType x)));
         Txt " , "; Opd (wrap_operand "itr->second._value" (is_string (valueType x)));
         Txt ") ON DUPLICATE KEY UPDATE  `map_value` = ";
         Opd (wrap_operand "itr->second._value" (is_string (valueType x)));
         Txt ";"])%list.

Definition key_test (pre : string) (f : Field) : list piece :=
  [Txt ("`" ++ name f ++ "` = ");
   Opd (wrap_operand (pre ++ name f) (is_string (type f)))].

Definition erase_pieces : list piece :=
  (Txt ("DELETE FROM `" ++ db_name x ++ "` WHERE ")
     :: pjoin [Txt " AND "] (map (key_test "") owner_keys)
     ++ [Txt " AND `map_key` = "; Opd (wrap_operand "*itr" (is_string (keyType x)));
         Txt ";"])%list.

Definition read_pieces : list piece :=
  (Txt ("SELECT * from `" ++ db_name x ++ "` WHERE ")
     :: pjoin [Txt " AND "] (map (key_test "obj->") owner_keys)
     ++ [Txt ";"])%list.

(** The statements at run time. *)
Definition upsert (env : string -> string) : string :=
  eval_chain env (operands_from "" upsert_pieces).

Definition erase (env : string -> string) : string :=
  eval_chain env (operands_from "" erase_pieces).

Definition read (env : string -> string) : string :=
  eval_chain env (operands_from "" read_pieces).

(** The names that are spliced are plain text. *)
Definition plain_dictionary : Prop :=
  Cxx.plain (dict_owner x) = true /\
  Cxx.plain (dict_name x) = true /\
  Forall (fun f => Cxx.plain (name f) = true) owner_keys.

End Dictionary.

End MapSql.

(** ** The getters of [Load] *)

Module Loader.

(** [resolveType] of [Load]: the getter for a declared field. A slot
    without a type falls through the switch; the template then prints
    [undefined]. *)
Definition resolveType (t : TypeSlot) : string :=
  match t with
  | Some T_double => "GetDouble"
  | Some T_float => "GetFloat"
  | Some T_int8 => "GetInt8"
  | Some T_int16 => "GetInt16"
  | Some T_int32 => "GetInt32"
  | Some T_int64 => "GetInt64"
  | Some T_uint8 => "GetUInt8"
  | Some T_uint16 => "GetUInt16"
  | Some T_uint32 => "GetUInt32"
  | Some T_uint64 => "GetUInt64"
  | Some T_int => "GetInt32"
  | Some T_string => "GetString"
  | None => "undefined"
  end.

(** [vo] of [Load]: the getter for a key or a value of a dictionary;
    [None] stands for [throw Error(`Invalid field type: ..`)]. *)
Definition vo (t : TypeSlot) : option string :=
  match t with
  | Some T_string => Some "GetString"
  | Some T_double => Some "GetDouble"
  | Some T_float => Some "GetFloat"
  | Some T_int => Some "GetInt32"
  | Some T_int8 => Some "GetInt8"
  | Some T_uint8 => Some "GetUInt8"
  | Some T_int16 => Some "GetInt16"
  | Some T_uint16 => Some "GetUInt16"
  | Some T_uint32 => Some "GetUInt32"
  | Some T_int32 => Some "GetInt32"
  | Some T_int64 => Some "GetInt64"
  | Some T_uint64 => Some "GetUInt64"
  | None => None
  end.

(** One read of a result row: the getter called and the column index
    passed to it. *)
Record Read := mkRead {
  getter : string;
  column : nat
}.

(** The two reads in the [set_silent] line of a dictionary: the key at
    [pk_count], the value at [pk_count+1]; [None] when [vo] throws. *)
Definition set_silent_reads (entry : Entry) (x : DBDictionary) : option (Read * Read) :=
  let pk_count := length (primaryKeys (fields entry)) in
  match vo (keyType x), vo (valueType x) with
  | Some gk, Some gv => Some (mkRead gk pk_count, mkRead gv (pk_count + 1))
  | _, _ => None
  end.

End Loader.

(** ** More inputs for the examples *)

Module Cases.
Import Creator.

(** The catalog of [Player] as CREATE TABLE leaves it. *)
Definition Player_rows : list Column :=
  [ mkColumn "id" "int(10) unsigned" true;
    mkColumn "name" "text" false;
    mkColumn "gold" "int(10) unsigned" false ].

Definition gold_field : Field := mkField "gold" (Some T_uint32) false "0".

(** [gold] as a signed column, outside every key. *)
Definition gold_signed : Column := mkColumn "gold" "int(11)" false.

(** [id] with its type reported in mixed case. *)
Definition id_mixed_case : Column := mkColumn "id" "Int(10) Unsigned" true.

(** [@WorldTable @AuthTable @Entity class Account { @PrimaryKey id: uint32 = 0 }] *)
Definition Account_class : Builder.ClassDeclaration :=
  Builder.mkClass ["@WorldTable"; "@AuthTable"; "@Entity"] "Account"
    [ Builder.mkMember true ["@PrimaryKey"] "id" (Some "uint32") (Some "0") ].

(** [@WorldTable class Log { @PrimaryKey lines: TSDBDict<uint32,string> }] *)
Definition Log_class : Builder.ClassDeclaration :=
  Builder.mkClass ["@WorldTable"] "Log"
    [ Builder.mkMember true ["@PrimaryKey"] "lines"
        (Some "TSDBDict<uint32,string>") None ].

(** [@Field tags: TSDBDict<uint32>] *)
Definition tags_member : Builder.Member :=
  Builder.mkMember true ["@Field"] "tags" (Some "TSDBDict<uint32>") None.

(** The dictionary [tags] of [Guild]. *)
Definition tags : DBDictionary := mkDict "Guild" "tags" (Some T_string) (Some T_uint32).

(** Two states of an instance of [Guild] that differ in everything but
    the primary key and the value at the iterator. *)
Definition env_of (other : string) (v : string) : string :=
  if String.eqb v "std::to_string(id)" then "7"
  else if String.eqb v "std::to_string(itr->second._value)" then "5"
  else other.

(** An instance whose dictionaries hold one clean entry each. *)
Definition clean_store : Flush.Store :=
  fun _ => Flush.mkDictState [("2", ("6", false))] [].

(** A database that accepts every statement. *)
Definition accept_all (s : Flush.Stmt) : bool := true.

End Cases.


(** * Properties of the table creator *)

(** The five ways through the block of a matched column: same type;
    string field; column was TEXT; column in a key; any other change. *)
Ltac matched_cases x c :=
  unfold Creator.matched;
  destruct (String.eqb (JS.toUpperCase (Creator.COLUMN_TYPE c))
                       (Creator.getReadSQLType (type x)));
  [|destruct (is_string (type x));
    [|destruct (String.eqb (JS.toUpperCase (Creator.COLUMN_TYPE c)) "TEXT");
      [|destruct (Creator.was_pk c)]]];
  simpl.

Section CreatorFacts.
Import Creator.

Variable tableName : string.
Variable dbtype : DBType.
Variable fields : list Field.
Variable db : string.

Local Abbreviation chain := (chain tableName dbtype).
Local Abbreviation matched := (matched tableName dbtype).
Local Abbreviation removed := (removed tableName dbtype).
Local Abbreviation turn := (turn tableName dbtype fields db).
Local Abbreviation loop := (loop tableName dbtype fields db).
Local Abbreviation missing := (missing tableName dbtype).
Local Abbreviation missing_one := (missing_one tableName dbtype).
Local Abbreviation backfill := (backfill tableName dbtype fields).
Local Abbreviation create := (create tableName dbtype fields).
Local Abbreviation tableGeneration := (tableGeneration tableName dbtype fields db).
Local Abbreviation plan := (plan tableName dbtype fields db).
Local Abbreviation rebuildTriggered := (rebuildTriggered tableName dbtype fields db).
Local Abbreviation breaks := (breaks fields).
Local Abbreviation find_field := (find_field fields).
Local Abbreviation loop_steps := (loop_steps tableName dbtype fields db).
Local Abbreviation scan_steps := (scan_steps tableName dbtype fields db).
Local Abbreviation declared_name := (declared_name fields).

(** The chain acts on the first declared field with the column's name. *)
Lemma chain_find (fs : list Field) (c : Column) (l : Locals) :
  chain fs c l =
  match find (fun x => String.eqb (COLUMN_NAME c) (name x)) fs with
  | Some x => matched x c l
  | None => removed c l
  end.
Proof.
  induction fs as [|x rest IH]; simpl; [reflexivity|].
  destruct (String.eqb (COLUMN_NAME c) (name x)); [reflexivity|exact IH].
Qed.

Lemma matched_brk (x : Field) (c : Column) (l : Locals) :
  snd (matched x c l) =
    negb (String.eqb (JS.toUpperCase (COLUMN_TYPE c)) (getReadSQLType (type x)))
    && negb (is_string (type x))
    && negb (String.eqb (JS.toUpperCase (COLUMN_TYPE c)) "TEXT")
    && was_pk c.
Proof.
  matched_cases x c; reflexivity.
Qed.

Lemma turn_brk (c : Column) (l : Locals) : snd (turn c l) = breaks c.
Proof.
  unfold Creator.turn, Creator.breaks, Creator.find_field.
  rewrite chain_find.
  destruct (find _ fields) as [x|].
  - pose proof (matched_brk x c l) as H.
    destruct (matched x c l) as [[evs l'] b]. simpl in *. exact H.
  - reflexivity.
Qed.

(** A turn changes [should_create] only when it breaks, and then sets it. *)
Lemma turn_should_create (c : Column) (l : Locals) :
  should_create (snd (fst (turn c l))) =
    if breaks c then true else should_create l.
Proof.
  unfold Creator.turn, Creator.breaks, Creator.find_field.
  rewrite chain_find.
  destruct (find _ fields) as [x|]; [|reflexivity].
  matched_cases x c; reflexivity.
Qed.

(** The turn that breaks executes nothing. *)
Lemma turn_break_steps (c : Column) (l : Locals) :
  breaks c = true -> filter is_exec (fst (fst (turn c l))) = [].
Proof.
  unfold Creator.turn, Creator.breaks, Creator.find_field.
  rewrite chain_find.
  destruct (find _ fields) as [x|]; [|discriminate].
  matched_cases x c; try discriminate; reflexivity.
Qed.

(** The statements of a turn do not depend on the locals. *)
Lemma turn_events_locals (c : Column) (l l' : Locals) :
  fst (fst (turn c l)) = fst (fst (turn c l')).
Proof.
  unfold Creator.turn. rewrite !chain_find.
  destruct (find _ fields) as [x|]; [|reflexivity].
  matched_cases x c; reflexivity.
Qed.

Lemma loop_cons (c : Column) (rest : list Column) (l : Locals) :
  loop (c :: rest) l =
    if breaks c then fst (turn c l)
    else (fst (fst (turn c l)) ++ fst (loop rest (snd (fst (turn c l)))),
          snd (loop rest (snd (fst (turn c l)))))%list.
Proof.
  simpl. pose proof (turn_brk c l) as H.
  destruct (turn c l) as [[evs l'] b]. simpl in *. subst b.
  destruct (breaks c); [reflexivity|].
  destruct (loop rest l'); reflexivity.
Qed.

(** The events of the loop do not depend on the locals it starts with. *)
Lemma loop_events_locals (rows : list Column) (l l' : Locals) :
  fst (loop rows l) = fst (loop rows l').
Proof.
  revert l l'. induction rows as [|c rest IH]; intros l l'; [reflexivity|].
  rewrite !loop_cons. destruct (breaks c).
  - apply turn_events_locals.
  - simpl. rewrite (turn_events_locals c l l'). f_equal. apply IH.
Qed.

(** Rows that do not break are scanned one after the other. *)
Lemma loop_app (pre rest : list Column) (l : Locals) :
  (forall p, In p pre -> breaks p = false) ->
  loop (pre ++ rest) l =
    ((fst (loop pre l) ++ fst (loop rest (snd (loop pre l))))%list,
     snd (loop rest (snd (loop pre l)))).
Proof.
  revert l. induction pre as [|c pre IH]; intros l Hpre.
  - simpl. destruct (loop rest l); reflexivity.
  - rewrite <- app_comm_cons, !loop_cons.
    rewrite (Hpre c (or_introl eq_refl)).
    rewrite IH by (intros p Hp; apply Hpre; right; exact Hp).
    simpl. rewrite app_assoc. reflexivity.
Qed.

Lemma loop_should_create (rows : list Column) (l : Locals) :
  (forall p, In p rows -> breaks p = false) ->
  should_create (snd (loop rows l)) = should_create l.
Proof.
  revert l. induction rows as [|c rest IH]; intros l Hrows; [reflexivity|].
  rewrite loop_cons, (Hrows c (or_introl eq_refl)). simpl.
  rewrite IH by (intros p Hp; apply Hrows; right; exact Hp).
  rewrite turn_should_create, (Hrows c (or_introl eq_refl)). reflexivity.
Qed.

(** Among rows one of which breaks there is a first one. *)
Lemma first_break (rows : list Column) :
  (exists c, In c rows /\ breaks c = true) ->
  exists pre c post,
    rows = (pre ++ c :: post)%list /\
    (forall p, In p pre -> breaks p = false) /\ breaks c = true.
Proof.
  induction rows as [|r rest IH]; intros [c [Hin Hc]]; [destruct Hin|].
  destruct (breaks r) eqn:Hr.
  - exists [], r, rest. repeat split; [intros p []|exact Hr].
  - destruct IH as (pre & c' & post & -> & Hpre & Hc').
    + destruct Hin as [->|Hin]; [congruence|]. exists c; auto.
    + exists (r :: pre), c', post. repeat split; [|exact Hc'].
      intros p [<-|Hp]; auto.
Qed.

(** Once [should_create] is set, no test for a missing field fires. *)
Lemma missing_idle (fs : list Field) (l : Locals) :
  should_create l = true -> missing fs l = ([], l).
Proof.
  intros H. induction fs as [|x rest IH]; [reflexivity|].
  simpl. unfold Creator.missing_one. rewrite H. simpl. rewrite IH. reflexivity.
Qed.

Lemma is_exec_Query (sql : string) : is_exec (Query dbtype sql) = true.
Proof. reflexivity. Qed.

Lemma backfill_exec : filter is_exec backfill = backfill.
Proof.
  unfold Creator.backfill.
  induction (filter (fun x => negb (isPrimaryKey x)) fields) as [|x rest IH];
    [reflexivity|].
  simpl. rewrite IH. reflexivity.
Qed.

Lemma create_exec (l : Locals) : filter is_exec (create l) = create l.
Proof. unfold Creator.create. destruct (should_create l); reflexivity. Qed.

(** The plan of a run on a catalog that has rows. *)
Lemma plan_rows (c : Column) (rest : list Column) :
  plan (c :: rest) =
    let r := loop (c :: rest) (mkLocals false []) in
    let m := missing fields (snd r) in
    (filter is_exec (fst r) ++ filter is_exec (fst m)
       ++ create (snd m) ++ backfill)%list.
Proof.
  unfold Creator.plan, Creator.tableGeneration.
  change (set_should_create false (mkLocals true [])) with (mkLocals false []).
  cbv zeta.
  destruct (loop (c :: rest) (mkLocals false [])) as [evs1 l2].
  cbn [fst snd].
  destruct (missing fields l2) as [evs2 l3].
  cbn [fst snd filter is_exec].
  rewrite !filter_app, create_exec, backfill_exec, <- app_assoc. reflexivity.
Qed.

Lemma rebuild_rows (c : Column) (rest : list Column) :
  rebuildTriggered (c :: rest) =
    should_create (snd (missing fields (snd (loop (c :: rest) (mkLocals false []))))).
Proof.
  unfold Creator.rebuildTriggered, Creator.tableGeneration.
  change (set_should_create false (mkLocals true [])) with (mkLocals false []).
  destruct (loop (c :: rest) (mkLocals false [])) as [evs1 l2].
  cbn [fst snd].
  destruct (missing fields l2) as [evs2 l3]. reflexivity.
Qed.

(** *** The [found] flags *)

Lemma find_field_name (n : string) (x : Field) :
  find_field n = Some x -> name x = n.
Proof.
  unfold Creator.find_field. intros H. apply find_some in H as [_ H].
  apply String.eqb_eq in H. symmetry. exact H.
Qed.

Lemma find_field_declared (y : Field) :
  In y fields -> declared_name (name y) = true.
Proof.
  intros Hy. unfold declared_name, Creator.find_field.
  destruct (find _ fields) eqn:E; [reflexivity|].
  apply (find_none _ _ E) in Hy. rewrite String.eqb_refl in Hy. discriminate.
Qed.

Lemma turn_found (c : Column) (l : Locals) (n : string) :
  is_found n (snd (fst (turn c l))) =
    is_found n l || (String.eqb n (COLUMN_NAME c) && declared_name (COLUMN_NAME c)).
Proof.
  unfold declared_name, Creator.turn. rewrite chain_find.
  fold (find_field (COLUMN_NAME c)).
  destruct (find_field (COLUMN_NAME c)) as [x|] eqn:E.
  - apply find_field_name in E. rewrite andb_true_r, <- E.
    assert (H : forall l', is_found n (set_found (name x) l') =
                           is_found n l' || String.eqb n (name x)).
    { intros l'. unfold is_found, set_found. simpl. apply orb_comm. }
    matched_cases x c; apply H.
  - simpl. rewrite andb_false_r, orb_false_r. reflexivity.
Qed.

Lemma loop_found (rows : list Column) (l : Locals) (n : string) :
  (forall p, In p rows -> breaks p = false) ->
  is_found n (snd (loop rows l)) =
    is_found n l
    || existsb (fun c => String.eqb n (COLUMN_NAME c) && declared_name (COLUMN_NAME c)) rows.
Proof.
  revert l. induction rows as [|c rest IH]; intros l Hrows.
  - simpl. rewrite orb_false_r. reflexivity.
  - rewrite loop_cons, (Hrows c (or_introl eq_refl)). simpl.
    rewrite IH by (intros p Hp; apply Hrows; right; exact Hp).
    rewrite turn_found, orb_assoc. reflexivity.
Qed.

(** After a loop without [break], the flag of a declared field tells
    whether some row has its name. *)
Lemma found_after_loop (y : Field) (rows : list Column) :
  In y fields ->
  (forall p, In p rows -> breaks p = false) ->
  is_found (name y) (snd (loop rows (mkLocals false []))) =
    existsb (fun c => String.eqb (name y) (COLUMN_NAME c)) rows.
Proof.
  intros Hy Hrows. rewrite loop_found by exact Hrows. simpl.
  clear Hrows. induction rows as [|c rest IH]; [reflexivity|].
  simpl. rewrite IH. f_equal.
  destruct (String.eqb (name y) (COLUMN_NAME c)) eqn:E; [|reflexivity].
  apply String.eqb_eq in E. rewrite <- E, find_field_declared by exact Hy.
  reflexivity.
Qed.

Lemma absent_iff (y : Field) (rows : list Column) :
  absent y rows <->
  existsb (fun c => String.eqb (name y) (COLUMN_NAME c)) rows = false.
Proof.
  unfold absent. split.
  - intros H. destruct (existsb _ rows) eqn:E; [|reflexivity].
    apply existsb_exists in E as (c & Hc & E).
    apply String.eqb_eq in E. exfalso. apply (H c Hc). symmetry. exact E.
  - intros H c Hc E.
    assert (X : existsb (fun c => String.eqb (name y) (COLUMN_NAME c)) rows = true).
    { apply existsb_exists. exists c. split; [exact Hc|].
      rewrite E. apply String.eqb_refl. }
    congruence.
Qed.

(** *** The tests for missing fields *)

Lemma missing_one_found (x : Field) (l : Locals) :
  found (snd (missing_one x l)) = found l.
Proof.
  unfold Creator.missing_one.
  destruct (negb (should_create l) && negb (is_found (name x) l));
    [destruct (isPrimaryKey x)|]; reflexivity.
Qed.

Lemma missing_cons (x : Field) (rest : list Field) (l : Locals) :
  missing (x :: rest) l =
    ((fst (missing_one x l) ++ fst (missing rest (snd (missing_one x l))))%list,
     snd (missing rest (snd (missing_one x l)))).
Proof.
  simpl. destruct (missing_one x l) as [evs l']. cbn [fst snd].
  destruct (missing rest l') as [evs' l'']. reflexivity.
Qed.

Lemma is_found_ext (n : string) (l l' : Locals) :
  found l = found l' -> is_found n l = is_found n l'.
Proof. unfold is_found. intros ->. reflexivity. Qed.

(** After the tests, [should_create] is set exactly when it was set
    before or a declared primary key has no flag. *)
Lemma missing_should_create (fs : list Field) (l : Locals) :
  should_create (snd (missing fs l)) =
    should_create l
    || existsb (fun x => isPrimaryKey x && negb (is_found (name x) l)) fs.
Proof.
  revert l. induction fs as [|x rest IH]; intros l.
  - simpl. rewrite orb_false_r. reflexivity.
  - rewrite missing_cons. cbn [snd existsb]. rewrite IH.
    assert (Hf : existsb (fun y => isPrimaryKey y
                                   && negb (is_found (name y) (snd (missing_one x l)))) rest
                 = existsb (fun y => isPrimaryKey y && negb (is_found (name y) l)) rest).
    { clear IH. induction rest as [|y r IHr]; [reflexivity|]. simpl.
      rewrite (is_found_ext (name y) _ l (missing_one_found x l)), IHr.
      reflexivity. }
    rewrite Hf. unfold Creator.missing_one.
    destruct (should_create l) eqn:Hs; simpl; [rewrite Hs; reflexivity|].
    destruct (is_found (name x) l); simpl.
    + rewrite Hs, andb_false_r. reflexivity.
    + destruct (isPrimaryKey x); simpl; [reflexivity|]. rewrite Hs. reflexivity.
Qed.

(** A missing field that is not a primary key gets its column when
    no primary key declared before it is missing. *)
Lemma missing_adds (pre post : list Field) (x : Field) (l : Locals) :
  should_create l = false ->
  (forall y, In y pre -> isPrimaryKey y = true -> is_found (name y) l = true) ->
  isPrimaryKey x = false ->
  is_found (name x) l = false ->
  In (AddColumn tableName dbtype (name x) (getWriteSQLType (type x)))
     (fst (missing (pre ++ x :: post) l)).
Proof.
  revert l. induction pre as [|y pre IH]; intros l Hs Hpre Hx Hf.
  - simpl app. rewrite missing_cons. cbn [fst]. apply in_or_app. left.
    unfold Creator.missing_one. rewrite Hs, Hf, Hx. simpl. left. reflexivity.
  - rewrite <- app_comm_cons, missing_cons. cbn [fst]. apply in_or_app. right.
    assert (Hy : snd (missing_one y l) = l).
    { unfold Creator.missing_one. rewrite Hs. simpl.
      destruct (is_found (name y) l) eqn:Fy; simpl; [reflexivity|].
      destruct (isPrimaryKey y) eqn:Py; [|reflexivity].
      rewrite (Hpre y (or_introl eq_refl) Py) in Fy. discriminate. }
    rewrite Hy. apply IH; auto.
    intros z Hz. apply Hpre. right. exact Hz.
Qed.

(** A row that names no declared field has its column dropped. *)
Lemma loop_drops (rows : list Column) (c : Column) (l : Locals) :
  (forall p, In p rows -> breaks p = false) ->
  In c rows -> find_field (COLUMN_NAME c) = None ->
  In (DropColumn tableName dbtype (COLUMN_NAME c)) (fst (loop rows l)).
Proof.
  revert l. induction rows as [|r rest IH]; intros l Hrows Hin Hnone; [destruct Hin|].
  rewrite loop_cons, (Hrows r (or_introl eq_refl)). cbn [fst].
  apply in_or_app. destruct Hin as [->|Hin].
  - left. unfold Creator.turn. rewrite chain_find.
    unfold Creator.find_field in Hnone. rewrite Hnone. simpl. auto.
  - right. apply IH; auto. intros p Hp. apply Hrows. right. exact Hp.
Qed.

(** *** The claims about a run *)

(** C1 (as the code has it). When some row of the catalog names a
    declared field that is not a string, with a type that is neither the
    field's read type nor TEXT, and the row is in a key, the run sets
    [should_create] and its plan ends with DROP TABLE IF EXISTS, CREATE
    TABLE and one UPDATE per field that is not a primary key. The
    statements already executed for the rows before the first such row
    stay in the plan, ahead of the rebuild; nothing is executed for that
    row or for the rows after it, and no test for a missing field fires. *)
Theorem pk_type_change_rebuilds (rows : list Column) (c : Column) (x : Field) :
  In c rows ->
  find_field (COLUMN_NAME c) = Some x ->
  is_string (type x) = false ->
  JS.toUpperCase (COLUMN_TYPE c) <> getReadSQLType (type x) ->
  JS.toUpperCase (COLUMN_TYPE c) <> "TEXT" ->
  was_pk c = true ->
  exists pre c' post,
    rows = (pre ++ c' :: post)%list /\
    (forall p, In p pre -> breaks p = false) /\
    breaks c' = true /\
    plan rows =
      (loop_steps pre
         ++ [DropTableIfExists tableName dbtype; CreateTable tableName dbtype fields]
         ++ backfill)%list /\
    rebuildTriggered rows = true.
Proof.
  intros Hin Hfind Hstr Hread Htext Hpk.
  assert (Hc : breaks c = true).
  { unfold Creator.breaks. rewrite Hfind, Hstr, Hpk.
    apply String.eqb_neq in Hread, Htext. rewrite Hread, Htext. reflexivity. }
  destruct (first_break rows (ex_intro _ c (conj Hin Hc)))
    as (pre & c' & post & -> & Hpre & Hc').
  exists pre, c', post. split; [reflexivity|]. split; [exact Hpre|].
  split; [exact Hc'|].
  assert (Hloop : forall l,
             filter is_exec (fst (loop (pre ++ c' :: post) l))
               = filter is_exec (fst (loop pre l)) /\
             should_create (snd (loop (pre ++ c' :: post) l)) = true).
  { intros l. rewrite loop_app by exact Hpre. cbn [fst snd].
    rewrite loop_cons, Hc'. split.
    - rewrite filter_app, turn_break_steps by exact Hc'. apply app_nil_r.
    - rewrite turn_should_create, Hc'. reflexivity. }
  destruct pre as [|p pre].
  - simpl app in *. destruct (Hloop (mkLocals false [])) as [H1 H2].
    rewrite plan_rows, rebuild_rows. cbv zeta.
    rewrite (missing_idle fields _ H2). cbn [fst snd filter].
    rewrite H1, H2. unfold Creator.create. rewrite H2.
    split; reflexivity.
  - rewrite <- app_comm_cons in *. destruct (Hloop (mkLocals false [])) as [H1 H2].
    rewrite plan_rows, rebuild_rows. cbv zeta.
    rewrite (missing_idle fields _ H2). cbn [fst snd filter].
    unfold Creator.create. rewrite H1, H2. split; reflexivity.
Qed.

(** The run on an empty catalog. *)
Lemma plan_nil :
  plan [] =
    (DropTableIfExists tableName dbtype :: CreateTable tableName dbtype fields
       :: backfill) /\
  rebuildTriggered [] = true.
Proof.
  unfold Creator.plan, Creator.rebuildTriggered, Creator.tableGeneration.
  cbn [fst snd app create Creator.create should_create filter is_exec].
  rewrite backfill_exec. split; reflexivity.
Qed.

(** C3 (as the code has it). On an empty catalog the run executes DROP
    TABLE IF EXISTS, CREATE TABLE and one UPDATE per field that is not a
    primary key; [should_create] keeps its initial value [true] and
    [ask] is never called. *)
Theorem empty_catalog_plan :
  plan [] =
    (DropTableIfExists tableName dbtype :: CreateTable tableName dbtype fields
       :: backfill) /\
  rebuildTriggered [] = true /\
  asked tableName dbtype fields db [] = [].
Proof.
  unfold Creator.plan, Creator.rebuildTriggered, Creator.asked,
    Creator.tableGeneration.
  cbn [fst snd app create Creator.create should_create filter is_exec].
  rewrite backfill_exec. repeat split.
  unfold Creator.backfill.
  induction (filter (fun x => negb (isPrimaryKey x)) fields) as [|y r IH];
    [reflexivity|exact IH].
Qed.

(** C4 (as the code has it). Every plan is the statements of the scan,
    then DROP TABLE IF EXISTS and CREATE TABLE when [should_create] is
    set, then one UPDATE per field that is not a primary key, whatever
    the value of [should_create]. *)
Theorem plan_shape (rows : list Column) :
  plan rows =
    (scan_steps rows
       ++ (if rebuildTriggered rows
           then [DropTableIfExists tableName dbtype; CreateTable tableName dbtype fields]
           else [])
       ++ backfill)%list.
Proof.
  destruct rows as [|c rest].
  - destruct plan_nil as (H1 & H2). rewrite H1, H2. reflexivity.
  - rewrite plan_rows, rebuild_rows. unfold Creator.scan_steps. cbv zeta.
    destruct (loop (c :: rest) (mkLocals false [])) as [evs1 l2]. cbn [fst snd].
    rewrite filter_app, <- app_assoc. unfold Creator.create. reflexivity.
Qed.

(** C7 (as the code has it). In a run on a catalog that has rows, none
    of which takes the [break]: every row that names no declared field
    has its column dropped; [should_create] ends up set exactly when
    some declared primary key is absent from the catalog, so dropped
    columns never cause a rebuild and an absent primary key always does;
    and a declared field that is not a primary key and is absent from
    the catalog gets ALTER TABLE .. ADD with its write type, provided no
    primary key declared before it is absent. *)
Theorem scan_without_break (rows : list Column) :
  rows <> [] ->
  (forall c, In c rows -> breaks c = false) ->
  (forall c, In c rows -> find_field (COLUMN_NAME c) = None ->
     In (DropColumn tableName dbtype (COLUMN_NAME c)) (plan rows)) /\
  (rebuildTriggered rows = true <->
     exists x, In x fields /\ isPrimaryKey x = true /\ absent x rows) /\
  (forall pre x post,
     fields = (pre ++ x :: post)%list ->
     isPrimaryKey x = false ->
     absent x rows ->
     (forall y, In y pre -> isPrimaryKey y = true -> ~ absent y rows) ->
     In (AddColumn tableName dbtype (name x) (getWriteSQLType (type x))) (plan rows)).
Proof.
  intros Hne Hrows. destruct rows as [|r rest]; [congruence|]. clear Hne.
  set (rows := r :: rest) in *.
  assert (Hsc : should_create (snd (loop rows (mkLocals false []))) = false).
  { rewrite loop_should_create by exact Hrows. reflexivity. }
  assert (Hfound : forall y, In y fields ->
            is_found (name y) (snd (loop rows (mkLocals false []))) = false
            <-> absent y rows).
  { intros y Hy. rewrite found_after_loop by assumption.
    symmetry. apply absent_iff. }
  split; [|split].
  - intros c Hc Hnone. unfold rows. rewrite plan_rows. cbv zeta.
    apply in_or_app. left. apply filter_In. split; [|reflexivity].
    apply loop_drops; assumption.
  - unfold rows at 1. rewrite rebuild_rows. fold rows.
    rewrite missing_should_create, Hsc. simpl. rewrite existsb_exists.
    split.
    + intros (x & Hx & H). apply andb_prop in H as [Hp Hf].
      exists x. repeat split; [exact Hx|exact Hp|].
      apply Hfound; [exact Hx|]. apply negb_true_iff. exact Hf.
    + intros (x & Hx & Hp & Ha). exists x. split; [exact Hx|].
      apply andb_true_intro. split; [exact Hp|].
      apply negb_true_iff. apply Hfound; assumption.
  - intros pre x post Hfields Hx Ha Hpre. unfold rows. rewrite plan_rows.
    fold rows. cbv zeta. apply in_or_app. right. apply in_or_app. left.
    apply filter_In. split; [|reflexivity].
    assert (Hin : forall y, In y (pre ++ x :: post)%list -> In y fields)
      by (intros y Hy; rewrite Hfields; exact Hy).
    rewrite Hfields at 1. apply missing_adds.
    + exact Hsc.
    + intros y Hy Hp. destruct (is_found (name y) _) eqn:E; [reflexivity|].
      exfalso. apply (Hpre y Hy Hp). apply Hfound; [|exact E].
      apply Hin. apply in_or_app. left. exact Hy.
    + exact Hx.
    + apply Hfound; [|exact Ha]. apply Hin. apply in_or_app. right. left. reflexivity.
Qed.

(** C10. In every run, whatever the logical database of the entity, the
    two catalog queries go through the function of the world database,
    and every statement that is executed goes through the function of
    the entity's own database; the query on COLUMNS opens every run. *)
Theorem catalog_on_world_statements_on_own (rows : list Column) :
  Forall (fun e => match e with
                   | Ask _ => True
                   | Fetch fn _ => fn = queryType world
                   | Exec fn _ => fn = queryType dbtype
                   end) (fst (tableGeneration rows)) /\
  hd_error (fst (tableGeneration rows))
    = Some (Fetch (queryType world) (columns_sql tableName db)).
Proof.
  set (P := fun e => match e with
                     | Ask _ => True
                     | Fetch fn _ => fn = queryType world
                     | Exec fn _ => fn = queryType dbtype
                     end).
  assert (HQ : forall sql, P (Query dbtype sql)).
  { intros sql. unfold P, Query. destruct dbtype; reflexivity. }
  assert (Hturn : forall c l, Forall P (fst (fst (turn c l)))).
  { intros c l. unfold Creator.turn. rewrite chain_find.
    destruct (find _ fields) as [x|].
    - matched_cases x c; repeat constructor; apply HQ.
    - simpl. repeat constructor; apply HQ. }
  assert (Hloop : forall rs l, Forall P (fst (loop rs l))).
  { induction rs as [|c rest IH]; intros l; [constructor|].
    rewrite loop_cons. destruct (breaks c); [apply Hturn|].
    cbn [fst]. apply Forall_app. split; [apply Hturn|apply IH]. }
  assert (Hmiss : forall fs l, Forall P (fst (missing fs l))).
  { induction fs as [|x rest IH]; intros l; [constructor|].
    rewrite missing_cons. cbn [fst]. apply Forall_app. split; [|apply IH].
    unfold Creator.missing_one.
    destruct (negb (should_create l) && negb (is_found (name x) l));
      [destruct (isPrimaryKey x)|]; repeat constructor. apply HQ. }
  assert (Hcreate : forall l, Forall P (create l)).
  { intros l. unfold Creator.create.
    destruct (should_create l); repeat constructor; apply HQ. }
  assert (Hback : Forall P backfill).
  { unfold Creator.backfill. apply Forall_map, Forall_forall. intros x _. apply HQ. }
  split.
  - unfold Creator.tableGeneration. destruct rows as [|c rest].
    + cbn [fst]. constructor; [reflexivity|].
      apply Forall_app. split; [constructor|].
      apply Forall_app. split; [apply Hcreate|apply Hback].
    + change (set_should_create false (mkLocals true [])) with (mkLocals false []).
      pose proof (Hloop (c :: rest) (mkLocals false [])) as H1.
      destruct (loop (c :: rest) (mkLocals false [])) as [evs1 l2].
      pose proof (Hmiss fields l2) as H2.
      destruct (missing fields l2) as [evs2 l3].
      cbn [fst] in *. constructor; [reflexivity|].
      repeat (apply Forall_app; split); auto.
  - unfold Creator.tableGeneration.
    destruct (match rows with [] => _ | _ :: _ => _ end) as [evs l]. reflexivity.
Qed.

End CreatorFacts.

Lemma pk_type_change_rebuilds_witness :
  In Sample.id_drifted Sample.drifted_rows /\
  Creator.find_field Sample.Player_fields (Creator.COLUMN_NAME Sample.id_drifted) = Some Sample.id_field /\
  is_string (type Sample.id_field) = false /\
  JS.toUpperCase (Creator.COLUMN_TYPE Sample.id_drifted)
    <> Creator.getReadSQLType (type Sample.id_field) /\
  JS.toUpperCase (Creator.COLUMN_TYPE Sample.id_drifted) <> "TEXT" /\
  Creator.was_pk Sample.id_drifted = true /\
  exists pre c' post,
    Sample.drifted_rows = (pre ++ c' :: post)%list /\
    (forall p, In p pre -> Creator.breaks Sample.Player_fields p = false) /\
    Creator.breaks Sample.Player_fields c' = true /\
    Creator.plan "Player" world Sample.Player_fields "w" Sample.drifted_rows =
      (Creator.loop_steps "Player" world Sample.Player_fields "w" pre
         ++ [Creator.DropTableIfExists "Player" world;
             Creator.CreateTable "Player" world Sample.Player_fields]
         ++ Creator.backfill "Player" world Sample.Player_fields)%list /\
    Creator.rebuildTriggered "Player" world Sample.Player_fields "w" Sample.drifted_rows = true.
Proof.
  assert (H1 : In Sample.id_drifted Sample.drifted_rows)
    by (simpl; auto).
  assert (H2 : Creator.find_field Sample.Player_fields
                 (Creator.COLUMN_NAME Sample.id_drifted)
               = Some Sample.id_field) by reflexivity.
  assert (H3 : is_string (type Sample.id_field) = false)
    by reflexivity.
  assert (H4 : JS.toUpperCase (Creator.COLUMN_TYPE Sample.id_drifted)
               <> Creator.getReadSQLType (type Sample.id_field))
    by (vm_compute; discriminate).
  assert (H5 : JS.toUpperCase (Creator.COLUMN_TYPE Sample.id_drifted) <> "TEXT")
    by (vm_compute; discriminate).
  assert (H6 : Creator.was_pk Sample.id_drifted = true) by reflexivity.
  repeat (split; [assumption|]).
  exact (pk_type_change_rebuilds "Player" world Sample.Player_fields "w"
           _ _ _ H1 H2 H3 H4 H5 H6).
Defined.

(** C1, counterexample. [Player] on a catalog with the column [legacy]
    and then the primary key [id] in a drifted type: the column is
    dropped before the rebuild, so the plan is not just the rebuild. *)
Lemma rebuild_keeps_earlier_statements :
  In Sample.id_drifted Sample.drifted_rows /\
  Creator.find_field Sample.Player_fields (Creator.COLUMN_NAME Sample.id_drifted) = Some Sample.id_field /\
  isPrimaryKey Sample.id_field = true /\
  JS.toUpperCase (Creator.COLUMN_TYPE Sample.id_drifted)
    <> Creator.getReadSQLType (type Sample.id_field) /\
  JS.toUpperCase (Creator.COLUMN_TYPE Sample.id_drifted) <> "TEXT" /\
  Creator.was_pk Sample.id_drifted = true /\
  Creator.plan "Player" world Sample.Player_fields "w" Sample.drifted_rows =
    (Creator.DropColumn "Player" world "legacy"
       :: Creator.DropTableIfExists "Player" world
       :: Creator.CreateTable "Player" world Sample.Player_fields
       :: Creator.backfill "Player" world Sample.Player_fields) /\
  Creator.plan "Player" world Sample.Player_fields "w" Sample.drifted_rows <>
    (Creator.DropTableIfExists "Player" world
       :: Creator.CreateTable "Player" world Sample.Player_fields
       :: Creator.backfill "Player" world Sample.Player_fields).
Proof.
  split; [simpl; auto|]. split; [reflexivity|]. split; [reflexivity|].
  split; [vm_compute; discriminate|]. split; [vm_compute; discriminate|].
  split; [reflexivity|]. split; [reflexivity|]. vm_compute. discriminate.
Qed.

(** C3, counterexample. [Player] on an empty catalog: the plan is not
    the single CREATE TABLE; it starts with DROP TABLE IF EXISTS, ends
    with the two UPDATEs, and [should_create] is set. *)
Lemma empty_catalog_not_only_create :
  Creator.plan "Player" world Sample.Player_fields "w" []
    <> [Creator.CreateTable "Player" world Sample.Player_fields] /\
  Creator.plan "Player" world Sample.Player_fields "w" [] =
    (Creator.DropTableIfExists "Player" world
       :: Creator.CreateTable "Player" world Sample.Player_fields
       :: Creator.backfill "Player" world Sample.Player_fields) /\
  length (Creator.backfill "Player" world Sample.Player_fields) = 2 /\
  Creator.rebuildTriggered "Player" world Sample.Player_fields "w" [] = true.
Proof.
  split; [vm_compute; discriminate|]. repeat split; reflexivity.
Qed.

(** C4, counterexample. [Player] on a catalog that has only [id], in the
    expected type: [should_create] stays unset, and the plan is the two
    ALTER TABLE .. ADD of the scan followed by the two UPDATEs. *)
Lemma backfill_without_rebuild :
  Creator.rebuildTriggered "Player" world Sample.Player_fields "w" [Sample.id_ok] = false /\
  Creator.plan "Player" world Sample.Player_fields "w" [Sample.id_ok] =
    [ Creator.AddColumn "Player" world "name" "TEXT";
      Creator.AddColumn "Player" world "gold" "INT UNSIGNED";
      Creator.BackfillDefault "Player" world (mkField "name" (Some T_string) false (dq ++ dq));
      Creator.BackfillDefault "Player" world (mkField "gold" (Some T_uint32) false "0") ] /\
  Creator.scan_steps "Player" world Sample.Player_fields "w" [Sample.id_ok] =
    [ Creator.AddColumn "Player" world "name" "TEXT";
      Creator.AddColumn "Player" world "gold" "INT UNSIGNED" ] /\
  Creator.plan "Player" world Sample.Player_fields "w" [Sample.id_ok]
    <> Creator.scan_steps "Player" world Sample.Player_fields "w" [Sample.id_ok].
Proof.
  repeat split; try reflexivity. vm_compute. discriminate.
Qed.

Lemma scan_without_break_witness :
  Sample.stale_rows <> [] /\
  (forall c, In c Sample.stale_rows -> Creator.breaks Sample.Player_fields c = false) /\
  (forall c, In c Sample.stale_rows -> Creator.find_field Sample.Player_fields (Creator.COLUMN_NAME c) = None ->
     In (Creator.DropColumn "Player" world (Creator.COLUMN_NAME c))
        (Creator.plan "Player" world Sample.Player_fields "w" Sample.stale_rows)) /\
  (Creator.rebuildTriggered "Player" world Sample.Player_fields "w" Sample.stale_rows = true <->
     exists x, In x Sample.Player_fields /\ isPrimaryKey x = true /\ Creator.absent x Sample.stale_rows) /\
  (forall pre x post,
     Sample.Player_fields = (pre ++ x :: post)%list ->
     isPrimaryKey x = false ->
     Creator.absent x Sample.stale_rows ->
     (forall y, In y pre -> isPrimaryKey y = true -> ~ Creator.absent y Sample.stale_rows) ->
     In (Creator.AddColumn "Player" world (name x) (Creator.getWriteSQLType (type x)))
        (Creator.plan "Player" world Sample.Player_fields "w" Sample.stale_rows)).
Proof.
  assert (H1 : Sample.stale_rows <> []) by discriminate.
  assert (H2 : forall c, In c Sample.stale_rows ->
                 Creator.breaks Sample.Player_fields c = false).
  { intros c [<-|[<-|[]]]; reflexivity. }
  split; [exact H1|]. split; [exact H2|].
  exact (scan_without_break "Player" world Sample.Player_fields "w" _ H1 H2).
Defined.

(** C7, counterexample. [Member] declares the primary keys [id] and
    [guild] and then [rank]; the catalog has only [id], in the expected
    type. No row takes the [break], [rank] is not a primary key and is
    absent from the catalog, and yet no ALTER TABLE .. ADD is executed
    for it: the missing primary key [guild] comes first. *)
Lemma no_add_after_missing_primary_key :
  (forall c, In c [Sample.id_ok] -> Creator.breaks Sample.Member_fields c = false) /\
  In Sample.rank_field Sample.Member_fields /\
  isPrimaryKey Sample.rank_field = false /\
  Creator.absent Sample.rank_field [Sample.id_ok] /\
  Creator.plan "Member" auth Sample.Member_fields "a" [Sample.id_ok] =
    [ Creator.DropTableIfExists "Member" auth;
      Creator.CreateTable "Member" auth Sample.Member_fields;
      Creator.BackfillDefault "Member" auth Sample.rank_field ] /\
  ~ In (Creator.AddColumn "Member" auth (name Sample.rank_field) (Creator.getWriteSQLType (type Sample.rank_field)))
       (Creator.plan "Member" auth Sample.Member_fields "a" [Sample.id_ok]).
Proof.
  split; [intros c [<-|[]]; reflexivity|].
  split; [simpl; auto|]. split; [reflexivity|].
  split; [intros c [<-|[]]; vm_compute; discriminate|].
  split; [reflexivity|].
  vm_compute. intros [H|[H|[H|[]]]]; discriminate H.
Qed.

(** * Properties of the query builders *)

Section MapperFacts.
Import Mapper.

Lemma sapp_assoc (a b c : string) : (a ++ b) ++ c = a ++ b ++ c.
Proof. induction a as [|x a IH]; simpl; [reflexivity|]. rewrite IH. reflexivity. Qed.

Lemma sapp_nil_r (a : string) : a ++ "" = a.
Proof. induction a as [|x a IH]; simpl; [reflexivity|]. rewrite IH. reflexivity. Qed.

Lemma join_cons2 (sep x y : string) (l : list string) :
  JS.join sep (x :: y :: l) = x ++ sep ++ JS.join sep (y :: l).
Proof. reflexivity. Qed.

Lemma concat_nosep (x : string) (l : list string) :
  String.concat "" (x :: l) = x ++ String.concat "" l.
Proof. destruct l; simpl; [rewrite sapp_nil_r|]; reflexivity. Qed.

Lemma cat_app (f : chunk -> string) (a b : list chunk) :
  cat f (a ++ b) = cat f a ++ cat f b.
Proof.
  induction a as [|c a IH]; simpl; [reflexivity|].
  rewrite IH, sapp_assoc. reflexivity.
Qed.

Lemma cat_join (f : chunk -> string) (sep : list chunk) (items : list (list chunk)) :
  cat f (join_chunks sep items) = JS.join (cat f sep) (map (cat f) items).
Proof.
  induction items as [|x r IH]; [reflexivity|].
  destruct r as [|y r]; [reflexivity|].
  change (join_chunks sep (x :: y :: r)) with (x ++ sep ++ join_chunks sep (y :: r))%list.
  rewrite !cat_app, IH. reflexivity.
Qed.

Lemma atoms_from_cons (cur : string) (cs : list chunk) :
  exists a r, atoms_from cur cs = a :: r.
Proof.
  revert cur. induction cs as [|[t|v] cs IH]; intros cur; simpl; eauto.
Qed.

(** What was written is the text of the chain. *)
Lemma emitted_from (plus cur : string) (cs : list chunk) :
  "JSTR(" ++ dq ++ cur ++ cat (written plus) cs ++ dq ++ ")"
  = show plus (atoms_from cur cs).
Proof.
  revert cur. induction cs as [|[t|v] cs IH]; intros cur.
  - reflexivity.
  - simpl atoms_from. rewrite <- IH. simpl cat. rewrite !sapp_assoc. reflexivity.
  - simpl atoms_from. unfold show. simpl map.
    destruct (atoms_from_cons "" cs) as (a & r & E).
    pose proof (IH "") as IH0. unfold show in IH0. rewrite E in *.
    simpl map in *. rewrite !join_cons2. rewrite <- IH0.
    simpl. rewrite !sapp_assoc. reflexivity.
Qed.

Lemma emitted_show (plus : string) (cs : list chunk) :
  emitted plus cs = show plus (atoms cs).
Proof. exact (emitted_from plus "" cs). Qed.


(** *** The written bodies are the chunked ones *)

Section Bodies.
Variable entry : Entry.

Lemma pk_test_written (l : list Field) :
  map (cat (written "+")) (map pk_test l)
  = map (fun x => "`" ++ name x ++ "` = " ++ dq ++ ")+this->" ++ name x
                    ++ "+JSTR(" ++ dq) l.
Proof.
  rewrite map_map. apply map_ext. intros x. simpl.
  rewrite !sapp_assoc, sapp_nil_r. reflexivity.
Qed.

Lemma loadQuery_text_chunks :
  loadQuery_text entry = "return " ++ emitted "+" (loadQuery_chunks entry) ++ ";".
Proof.
  unfold loadQuery_text, emitted, loadQuery_chunks.
  cbn [cat written]. rewrite cat_app, cat_join, pk_test_written.
  simpl. rewrite !sapp_assoc. reflexivity.
Qed.

Lemma removeQuery_text_chunks :
  removeQuery_text entry = "return " ++ emitted "+" (removeQuery_chunks entry) ++ ";".
Proof.
  unfold removeQuery_text, emitted, removeQuery_chunks.
  cbn [cat written]. rewrite cat_app, cat_join, pk_test_written.
  simpl. rewrite !sapp_assoc. reflexivity.
Qed.

Lemma inserted_written (l : list Field) :
  map (cat (written " + ")) (map inserted l)
  = map (fun x =>
           if is_string (type x)
           then bs ++ dq ++ dq ++ ") + this->" ++ name x ++ " + JSTR(" ++ dq ++ bs ++ dq
           else dq ++ ") + this->" ++ name x ++ " + JSTR(" ++ dq) l.
Proof.
  rewrite map_map. apply map_ext. intros x. unfold inserted.
  destruct (is_string (type x)); simpl; rewrite !sapp_assoc; reflexivity.
Qed.

Lemma updated_written (l : list Field) :
  map (cat (written " + ")) (map updated l)
  = map (fun x =>
           ("`" ++ name x ++ "` = ")
           ++ (if is_string (type x) then bs ++ dq else "")
           ++ (dq ++ ") + this->" ++ name x ++ " + JSTR(" ++ dq)
           ++ (if is_string (type x) then bs ++ dq else "")) l.
Proof.
  rewrite map_map. apply map_ext. intros x. unfold updated, inserted.
  destruct (is_string (type x)); simpl; rewrite !sapp_assoc; reflexivity.
Qed.

Lemma saveQuery_text_chunks :
  saveQuery_text entry = "return " ++ emitted " + " (saveQuery_chunks entry) ++ ";".
Proof.
  unfold saveQuery_text, emitted, saveQuery_chunks.
  cbn [cat written]. rewrite cat_app. cbn [cat written].
  rewrite cat_app, !cat_join, inserted_written, updated_written.
  cbn [cat written]. rewrite !sapp_assoc. reflexivity.
Qed.

Lemma LoadQuery_text_chunks :
  LoadQuery_text entry = "return " ++ emitted " + " (LoadQuery_chunks entry) ++ ";".
Proof.
  unfold LoadQuery_text, emitted, LoadQuery_chunks. simpl.
  rewrite !sapp_assoc. reflexivity.
Qed.


(** *** Evaluation *)

Lemma plain_unescape (t s : string) :
  Cxx.plain t = true -> Cxx.unescape (t ++ s) = t ++ Cxx.unescape s.
Proof.
  induction t as [|c t IH]; intros Hp; [reflexivity|].
  simpl in Hp. apply andb_prop in Hp as [Hc Ht]. apply andb_prop in Hc as [Hc _].
  apply negb_true_iff in Hc. simpl. rewrite Hc, IH by exact Ht. reflexivity.
Qed.

Lemma plain_self (t : string) : Cxx.plain t = true -> Cxx.unescape t = t.
Proof.
  intros Hp. rewrite <- (sapp_nil_r t) at 1. rewrite plain_unescape by exact Hp.
  apply sapp_nil_r.
Qed.

Lemma plain_closed (t : string) : Cxx.plain t = true -> closed t.
Proof.
  intros Hp s. rewrite (plain_unescape t s Hp), (plain_self t Hp). reflexivity.
Qed.

Lemma closed_app (a b : string) : closed a -> closed b -> closed (a ++ b).
Proof.
  intros Ha Hb s. rewrite sapp_assoc, Ha, Hb, Ha, sapp_assoc. reflexivity.
Qed.

Lemma escaped_quote_closed : closed (bs ++ dq).
Proof. intros s. reflexivity. Qed.

Lemma plain_app (a b : string) :
  Cxx.plain (a ++ b) = Cxx.plain a && Cxx.plain b.
Proof.
  induction a as [|c a IH]; [reflexivity|]. simpl. rewrite IH, andb_assoc. reflexivity.
Qed.

Lemma plain_lower (a : string) :
  Cxx.plain a = true -> Cxx.plain (JS.toLowerCase a) = true.
Proof.
  unfold JS.toLowerCase.
  induction a as [|c a IH]; [reflexivity|]. simpl. intros H.
  apply andb_prop in H as [Hc Ha]. rewrite (IH Ha), andb_true_r.
  unfold JS.lower_char. destruct (JS.is_upper c) eqn:U; [|exact Hc].
  clear -U. unfold JS.is_upper in U.
  destruct c as [[] [] [] [] [] [] [] []]; try discriminate U; reflexivity.
Qed.

Lemma eval_cons (env : string -> string) (a : atom) (e : list atom) :
  eval env (a :: e) = eval_atom env a ++ eval env e.
Proof. unfold eval. simpl map. apply concat_nosep. Qed.

(** With closed chunks, the chain evaluates chunk by chunk. *)
Lemma eval_atoms_from (env : string -> string) (cur : string) (cs : list chunk) :
  closed cur -> Forall closed_chunk cs ->
  eval env (atoms_from cur cs) = Cxx.unescape cur ++ cat (value env) cs.
Proof.
  revert cur. induction cs as [|[t|v] cs IH]; intros cur Hcur Hcs.
  - simpl. rewrite sapp_nil_r. reflexivity.
  - inversion Hcs as [|? ? Ht Hr]; subst. simpl atoms_from.
    rewrite IH by (try apply closed_app; assumption).
    rewrite Hcur. simpl cat. rewrite sapp_assoc. reflexivity.
  - inversion Hcs as [|? ? _ Hr]; subst. simpl atoms_from.
    rewrite !eval_cons, IH by (try assumption; intros s; reflexivity).
    reflexivity.
Qed.

Lemma eval_atoms (env : string -> string) (cs : list chunk) :
  Forall closed_chunk cs -> eval env (atoms cs) = cat (value env) cs.
Proof.
  intros H. unfold atoms. rewrite eval_atoms_from; [reflexivity| |exact H].
  intros s. reflexivity.
Qed.

Lemma closed_join (sep : list chunk) (items : list (list chunk)) :
  Forall closed_chunk sep -> Forall (Forall closed_chunk) items ->
  Forall closed_chunk (join_chunks sep items).
Proof.
  intros Hsep Hitems. induction Hitems as [|x r Hx Hr IH]; [constructor|].
  destruct r as [|y r]; [exact Hx|].
  change (join_chunks sep (x :: y :: r)) with (x ++ sep ++ join_chunks sep (y :: r))%list.
  repeat (apply Forall_app; split); assumption.
Qed.


(** *** The SQL of the builders *)

Lemma plain_wrap (a n b : string) :
  Cxx.plain a = true -> Cxx.plain n = true -> Cxx.plain b = true ->
  Cxx.plain (a ++ n ++ b) = true.
Proof. intros Ha Hn Hb. rewrite !plain_app, Ha, Hn, Hb. reflexivity. Qed.

Lemma pks_plain :
  plain_names entry -> Forall (fun x => Cxx.plain (name x) = true) (pks entry).
Proof.
  intros [_ H]. unfold pks, primaryKeys. rewrite Forall_forall in *.
  intros x Hx. apply filter_In in Hx as [Hx _]. auto.
Qed.

Lemma pk_test_closed (l : list Field) :
  Forall (fun x => Cxx.plain (name x) = true) l ->
  Forall (Forall closed_chunk) (map pk_test l).
Proof.
  intros H. apply Forall_map. eapply Forall_impl; [|exact H].
  intros x Hx. repeat constructor. apply plain_closed, plain_wrap; auto.
Qed.

Lemma pk_test_value (env : string -> string) (l : list Field) :
  Forall (fun x => Cxx.plain (name x) = true) l ->
  map (cat (value env)) (map pk_test l)
  = map (fun x => "`" ++ name x ++ "` = " ++ env ("this->" ++ name x)) l.
Proof.
  intros H. rewrite map_map. apply map_ext_in. intros x Hx.
  rewrite Forall_forall in H. specialize (H x Hx).
  cbn [pk_test cat value].
  rewrite (plain_self ("`" ++ name x ++ "` = ")) by (apply plain_wrap; auto).
  rewrite sapp_nil_r, !sapp_assoc. reflexivity.
Qed.

Lemma loadQuery_value (env : string -> string) :
  plain_names entry ->
  loadQuery entry env =
    "SELECT * FROM `" ++ className entry ++ "` WHERE "
      ++ JS.join " AND "
           (map (fun x => "`" ++ name x ++ "` = " ++ env ("this->" ++ name x)) (pks entry))
      ++ ";".
Proof.
  intros Hp. pose proof (pks_plain Hp) as Hk. destruct Hp as [Hc _].
  unfold loadQuery, loadQuery_chunks. rewrite eval_atoms.
  - cbn [cat value]. rewrite cat_app, cat_join, pk_test_value by exact Hk.
    rewrite (plain_self ("SELECT * FROM `" ++ className entry ++ "` WHERE "))
      by (apply plain_wrap; auto).
    rewrite !sapp_assoc. reflexivity.
  - constructor; [apply plain_closed, plain_wrap; auto|].
    apply Forall_app. split.
    + apply closed_join; [repeat constructor; apply plain_closed; reflexivity|].
      apply pk_test_closed, Hk.
    + repeat constructor; apply plain_closed; reflexivity.
Qed.

Lemma removeQuery_value (env : string -> string) :
  plain_names entry ->
  removeQuery entry env =
    "DELETE FROM `" ++ JS.toLowerCase (className entry) ++ "` WHERE "
      ++ JS.join " AND "
           (map (fun x => "`" ++ name x ++ "` = " ++ env ("this->" ++ name x)) (pks entry))
      ++ ";".
Proof.
  intros Hp. pose proof (pks_plain Hp) as Hk. destruct Hp as [Hc _].
  apply plain_lower in Hc.
  unfold removeQuery, removeQuery_chunks. rewrite eval_atoms.
  - cbn [cat value]. rewrite cat_app, cat_join, pk_test_value by exact Hk.
    rewrite (plain_self ("DELETE FROM `" ++ JS.toLowerCase (className entry) ++ "` WHERE "))
      by (apply plain_wrap; auto).
    rewrite !sapp_assoc. reflexivity.
  - constructor; [apply plain_closed, plain_wrap; auto|].
    apply Forall_app. split.
    + apply closed_join; [repeat constructor; apply plain_closed; reflexivity|].
      apply pk_test_closed, Hk.
    + repeat constructor; apply plain_closed; reflexivity.
Qed.

Lemma LoadQuery_value (env : string -> string) :
  plain_names entry ->
  LoadQuery entry env =
    "SELECT * from " ++ JS.toLowerCase (className entry) ++ " WHERE "
      ++ env "query" ++ ";".
Proof.
  intros [Hc _]. apply plain_lower in Hc.
  unfold LoadQuery, LoadQuery_chunks. rewrite eval_atoms.
  - cbn [cat value].
    rewrite (plain_self ("SELECT * from " ++ JS.toLowerCase (className entry) ++ " WHERE "))
      by (apply plain_wrap; auto).
    rewrite !sapp_assoc. reflexivity.
  - constructor; [apply plain_closed, plain_wrap; auto|].
    constructor; [exact I|].
    constructor; [apply plain_closed; reflexivity|constructor].
Qed.

Lemma inserted_closed (x : Field) : Forall closed_chunk (inserted x).
Proof.
  unfold inserted. destruct (is_string (type x)); repeat constructor;
    apply escaped_quote_closed.
Qed.

Lemma inserted_value (env : string -> string) (x : Field) :
  cat (value env) (inserted x) = sql_value env x.
Proof.
  unfold inserted, sql_value. destruct (is_string (type x)); cbn [cat value].
  - change (Cxx.unescape (bs ++ dq)) with dq. rewrite sapp_nil_r. reflexivity.
  - apply sapp_nil_r.
Qed.

Lemma updated_value (env : string -> string) (l : list Field) :
  Forall (fun x => Cxx.plain (name x) = true) l ->
  map (cat (value env)) (map updated l)
  = map (fun x => "`" ++ name x ++ "` = " ++ sql_value env x) l.
Proof.
  intros H. rewrite map_map. apply map_ext_in. intros x Hx.
  rewrite Forall_forall in H. specialize (H x Hx).
  unfold updated. cbn [cat value]. rewrite inserted_value.
  rewrite (plain_self ("`" ++ name x ++ "` = ")) by (apply plain_wrap; auto).
  rewrite !sapp_assoc. reflexivity.
Qed.

Lemma saveQuery_value (env : string -> string) :
  plain_names entry ->
  saveQuery entry env =
    "INSERT INTO `" ++ JS.toLowerCase (className entry) ++ "` VALUES ( "
      ++ JS.join " , " (map (sql_value env) (fields entry))
      ++ ") ON DUPLICATE KEY UPDATE "
      ++ JS.join " , "
           (map (fun x => "`" ++ name x ++ "` = " ++ sql_value env x) (fields entry))
      ++ ";".
Proof.
  intros [Hc Hf]. apply plain_lower in Hc.
  unfold saveQuery, saveQuery_chunks. rewrite eval_atoms.
  - cbn [cat value]. rewrite cat_app. cbn [cat value].
    rewrite cat_app, !cat_join, updated_value by exact Hf.
    rewrite map_map, (map_ext _ _ (inserted_value env)).
    rewrite (plain_self ("INSERT INTO `" ++ JS.toLowerCase (className entry) ++ "` VALUES ( "))
      by (apply plain_wrap; auto).
    rewrite !sapp_assoc. reflexivity.
  - constructor; [apply plain_closed, plain_wrap; auto|].
    apply Forall_app. split.
    + apply closed_join; [repeat constructor; apply plain_closed; reflexivity|].
      apply Forall_map, Forall_forall. intros x _. apply inserted_closed.
    + constructor; [apply plain_closed; reflexivity|].
      apply Forall_app. split.
      * apply closed_join; [repeat constructor; apply plain_closed; reflexivity|].
        apply Forall_map. eapply Forall_impl; [|exact Hf].
        intros x Hx. constructor; [|apply inserted_closed].
        apply plain_closed, plain_wrap; auto.
      * repeat constructor; apply plain_closed; reflexivity.
Qed.

(** C2 (as the code has it). The body of [saveQuery()] returns a chain
    whose value inserts every field in declaration order and lists every
    field, primary keys included, in declaration order in the update
    clause; a string value stands between double quotes, any other value
    as it renders. *)
Theorem saveQuery_sql (env : string -> string) :
  plain_names entry ->
  exists e,
    saveQuery_text entry = "return " ++ show " + " e ++ ";" /\
    eval env e =
      "INSERT INTO `" ++ JS.toLowerCase (className entry) ++ "` VALUES ( "
        ++ JS.join " , " (map (sql_value env) (fields entry))
        ++ ") ON DUPLICATE KEY UPDATE "
        ++ JS.join " , "
             (map (fun x => "`" ++ name x ++ "` = " ++ sql_value env x) (fields entry))
        ++ ";".
Proof.
  intros Hp. exists (atoms (saveQuery_chunks entry)). split.
  - rewrite saveQuery_text_chunks, emitted_show. reflexivity.
  - apply saveQuery_value. exact Hp.
Qed.

(** C5 (as the code has it). The body of [loadQuery()] returns a chain
    whose value is SELECT * FROM, the table name between backticks,
    WHERE, and for each primary key its name between backticks, an
    equals sign and its value as it renders, without quotes, joined by
    AND, then a semicolon; the table name is the class name of the
    entity up to the case of its letters. The body of the static
    [LoadQuery(query)] returns SELECT * from (in lower case), the class
    name in lower case without backticks, WHERE, the given predicate and
    a semicolon. *)
Theorem loadQuery_sql (env : string -> string) :
  plain_names entry ->
  (exists e table,
     loadQuery_text entry = "return " ++ show "+" e ++ ";" /\
     JS.toLowerCase table = JS.toLowerCase (className entry) /\
     eval env e =
       "SELECT * FROM `" ++ table ++ "` WHERE "
         ++ JS.join " AND "
              (map (fun x => "`" ++ name x ++ "` = " ++ env ("this->" ++ name x))
                   (pks entry))
         ++ ";") /\
  (exists e,
     LoadQuery_text entry = "return " ++ show " + " e ++ ";" /\
     eval env e =
       "SELECT * from " ++ JS.toLowerCase (className entry) ++ " WHERE "
         ++ env "query" ++ ";").
Proof.
  intros Hp. split.
  - exists (atoms (loadQuery_chunks entry)), (className entry).
    split; [|split; [reflexivity|]].
    + rewrite loadQuery_text_chunks, emitted_show. reflexivity.
    + apply loadQuery_value. exact Hp.
  - exists (atoms (LoadQuery_chunks entry)). split.
    + rewrite LoadQuery_text_chunks, emitted_show. reflexivity.
    + apply LoadQuery_value. exact Hp.
Qed.

End Bodies.

Lemma saveQuery_sql_witness :
  plain_names Sample.Player /\
  exists e,
    saveQuery_text Sample.Player = "return " ++ show " + " e ++ ";" /\
    eval Sample.env_sample e =
      "INSERT INTO `" ++ JS.toLowerCase (className Sample.Player) ++ "` VALUES ( "
        ++ JS.join " , " (map (sql_value Sample.env_sample) (fields Sample.Player))
        ++ ") ON DUPLICATE KEY UPDATE "
        ++ JS.join " , "
             (map (fun x => "`" ++ name x ++ "` = " ++ sql_value Sample.env_sample x)
                  (fields Sample.Player))
        ++ ";".
Proof.
  split; [split; [reflexivity|repeat constructor]|].
  apply (saveQuery_sql Sample.Player Sample.env_sample).
  split; [reflexivity|repeat constructor].
Defined.

(** C2, counterexample. For [Player] with id 7, name Bob and gold 5 the
    update clause of the save statement starts with the primary key
    [id]; the statement is not the one with only [name] and [gold] in
    its update clause. *)
Lemma saveQuery_updates_primary_key :
  saveQuery_text Sample.Player
    = "return " ++ show " + " (atoms (saveQuery_chunks Sample.Player)) ++ ";" /\
  saveQuery Sample.Player Sample.env_sample =
    "INSERT INTO `player` VALUES ( 7 , " ++ dq ++ "Bob" ++ dq
      ++ " , 5) ON DUPLICATE KEY UPDATE `id` = 7 , `name` = "
      ++ dq ++ "Bob" ++ dq ++ " , `gold` = 5;" /\
  saveQuery Sample.Player Sample.env_sample
    <> claimed_saveQuery Sample.Player Sample.env_sample.
Proof. split; [reflexivity|]. split; [reflexivity|]. vm_compute. discriminate. Qed.

Lemma loadQuery_sql_witness :
  plain_names Sample.Player /\
  (exists e table,
     loadQuery_text Sample.Player = "return " ++ show "+" e ++ ";" /\
     JS.toLowerCase table = JS.toLowerCase (className Sample.Player) /\
     eval Sample.env_sample e =
       "SELECT * FROM `" ++ table ++ "` WHERE "
         ++ JS.join " AND "
              (map (fun x => "`" ++ name x ++ "` = "
                               ++ Sample.env_sample ("this->" ++ name x))
                   (pks Sample.Player))
         ++ ";") /\
  (exists e,
     LoadQuery_text Sample.Player = "return " ++ show " + " e ++ ";" /\
     eval Sample.env_sample e =
       "SELECT * from " ++ JS.toLowerCase (className Sample.Player) ++ " WHERE "
         ++ Sample.env_sample "query" ++ ";").
Proof.
  split; [split; [reflexivity|repeat constructor]|].
  apply (loadQuery_sql Sample.Player Sample.env_sample).
  split; [reflexivity|repeat constructor].
Defined.

(** C5, counterexample. For [Player] with id 7 the load statement has no
    double quote in it and is not the statement with the value between
    quotes; the static builder writes [from] in lower case and no
    backtick. *)
Lemma loadQuery_value_unquoted :
  loadQuery_text Sample.Player
    = "return " ++ show "+" (atoms (loadQuery_chunks Sample.Player)) ++ ";" /\
  LoadQuery_text Sample.Player
    = "return " ++ show " + " (atoms (LoadQuery_chunks Sample.Player)) ++ ";" /\
  loadQuery Sample.Player Sample.env_sample = "SELECT * FROM `Player` WHERE `id` = 7;" /\
  has_dq (loadQuery Sample.Player Sample.env_sample) = false /\
  loadQuery Sample.Player Sample.env_sample
    <> claimed_loadQuery Sample.Player "Player" Sample.env_sample /\
  loadQuery Sample.Player Sample.env_sample
    <> claimed_loadQuery Sample.Player "player" Sample.env_sample /\
  LoadQuery Sample.Player Sample.env_sample = "SELECT * from player WHERE `id` > 3;".
Proof.
  do 4 (split; [reflexivity|]).
  split; [vm_compute; discriminate|]. split; [vm_compute; discriminate|reflexivity].
Qed.

(** C9, at [Player]. The load statement of an instance names the table
    [Player], as the class is written (and as the table creator is
    called for it), where the save and the remove statements and the
    static load name [player]. *)
Lemma loadQuery_table_case :
  loadQuery_text Sample.Player
    = "return " ++ show "+" (atoms (loadQuery_chunks Sample.Player)) ++ ";" /\
  saveQuery_text Sample.Player
    = "return " ++ show " + " (atoms (saveQuery_chunks Sample.Player)) ++ ";" /\
  removeQuery_text Sample.Player
    = "return " ++ show "+" (atoms (removeQuery_chunks Sample.Player)) ++ ";" /\
  map fst (Builder.tables Sample.Player) = ["Player"] /\
  table_of (loadQuery Sample.Player Sample.env_sample) = Some "Player" /\
  table_of (saveQuery Sample.Player Sample.env_sample) = Some "player" /\
  table_of (removeQuery Sample.Player Sample.env_sample) = Some "player" /\
  removeQuery Sample.Player Sample.env_sample = "DELETE FROM `player` WHERE `id` = 7;" /\
  table_of (loadQuery Sample.Player Sample.env_sample)
    <> table_of (saveQuery Sample.Player Sample.env_sample).
Proof. repeat split; try reflexivity. vm_compute. discriminate. Qed.

End MapperFacts.

(** * Properties of the emitted save *)

Section FlushFacts.
Import Flush.

Variable accepts : Stmt -> bool.

Local Abbreviation attempt := (attempt accepts).

Lemma for_each_send (l : list Stmt) (st : Store) :
  for_each l (send accepts) st =
    (fst (attempt l), st, if snd (attempt l) then Some tt else None).
Proof.
  induction l as [|s r IH]; [reflexivity|].
  cbn [for_each attempt]. unfold bind. unfold send at 1.
  destruct (accepts s); [|reflexivity].
  rewrite IH. destruct (snd (attempt r)); reflexivity.
Qed.

Lemma attempt_ok (l : list Stmt) :
  snd (attempt l) = true -> fst (attempt l) = l /\ forallb accepts l = true.
Proof.
  induction l as [|s r IH]; [auto|]. simpl.
  destruct (accepts s); simpl; [|discriminate].
  intros H. destruct (IH H) as [-> ->]. auto.
Qed.

Lemma attempt_fail (l : list Stmt) :
  snd (attempt l) = false ->
  exists okp s after,
    l = (okp ++ s :: after)%list /\ accepts s = false /\
    forallb accepts okp = true /\ fst (attempt l) = (okp ++ [s])%list.
Proof.
  induction l as [|s r IH]; [discriminate|]. simpl.
  destruct (accepts s) eqn:E; simpl.
  - intros H. destruct (IH H) as (okp & s' & after & -> & Hs & Hok & ->).
    exists (s :: okp), s', after. simpl. rewrite E, Hok. auto.
  - intros _. exists [], s, r. auto.
Qed.

Lemma attempt_app (a b : list Stmt) :
  attempt (a ++ b) =
    if snd (attempt a) then ((a ++ fst (attempt b))%list, snd (attempt b))
    else attempt a.
Proof.
  induction a as [|s a IH]; simpl.
  - destruct (attempt b); reflexivity.
  - destruct (accepts s); [|reflexivity]. rewrite IH. cbn [fst snd].
    destruct (attempt a) as [p []]; reflexivity.
Qed.

Lemma send_then (l : list Stmt) (k : M unit) (st : Store) :
  bind (for_each l (send accepts)) (fun _ => k) st =
    if snd (attempt l)
    then (l ++ fst (fst (k st)), snd (fst (k st)), snd (k st))%list
    else (fst (attempt l), st, None).
Proof.
  unfold bind. rewrite for_each_send.
  destruct (snd (attempt l)) eqn:E; [|reflexivity].
  destruct (attempt_ok _ E) as [-> _].
  destruct (k st) as [[sent' st''] r]. reflexivity.
Qed.

Lemma bind_ext_l {A B : Type} (m m' : M A) (k : A -> M B) (st : Store) :
  (forall st0, m st0 = m' st0) -> bind m k st = bind m' k st.
Proof. intros H. unfold bind. rewrite H. reflexivity. Qed.

Lemma bind_ext_r {A B : Type} (m : M A) (k k' : A -> M B) (st : Store) :
  (forall a st0, k a st0 = k' a st0) -> bind m k st = bind m k' st.
Proof.
  intros H. unfold bind. destruct (m st) as [[sent st'] [a|]]; [|reflexivity].
  rewrite H. reflexivity.
Qed.

Lemma bind_ret {B : Type} (k : unit -> M B) (st : Store) :
  bind (ret tt) k st = k tt st.
Proof. unfold bind, ret. destruct (k tt st) as [[sent st'] r]. reflexivity. Qed.

(** The first loop sends the upserts of the dirty entries. *)
Lemma for_each_dirty (x : DBDictionary) (d : Dict) (st : Store) :
  for_each (entries d) (upsert_dirty accepts x) st
  = for_each (upserts x d) (send accepts) st.
Proof.
  unfold upserts. revert st.
  induction (entries d) as [|kv r IH]; intros st; [reflexivity|].
  cbn [for_each filter]. unfold upsert_dirty at 1.
  destruct (snd (snd kv)); cbn [negb map for_each].
  - apply bind_ext_r. intros _ st0. apply IH.
  - rewrite bind_ret. apply IH.
Qed.

(** The second loop sends the deletes of the erased keys. *)
Lemma for_each_erased (x : DBDictionary) (d : Dict) (st : Store) :
  for_each (erases d) (fun k => send accepts (Erase (db_name x) k)) st
  = for_each (erasures x d) (send accepts) st.
Proof.
  unfold erasures. revert st.
  induction (erases d) as [|k r IH]; intros st; [reflexivity|].
  cbn [for_each map]. apply bind_ext_r. intros _ st0. apply IH.
Qed.

(** One dictionary: its statements are attempted in order, and the
    dictionary is cleared when none failed. *)
Lemma flush_run (x : DBDictionary) (st : Store) :
  flush accepts x st =
    (fst (attempt (statements x st)),
     if snd (attempt (statements x st))
     then update st (dict_name x) (clear (st (dict_name x))) else st,
     if snd (attempt (statements x st)) then Some tt else None).
Proof.
  unfold flush, statements.
  unfold bind at 1, read. cbn [app].
  set (d := st (dict_name x)).
  rewrite (bind_ext_l _ _ _ st (for_each_dirty x d)).
  rewrite (bind_ext_r _ _ (fun _ => bind (for_each (erasures x d) (send accepts))
                                         (fun _ => clear_dict (dict_name x))) st)
    by (intros _ st0; apply bind_ext_l, for_each_erased).
  rewrite send_then, attempt_app.
  destruct (snd (attempt (upserts x d))) eqn:E1; [|rewrite E1; reflexivity].
  rewrite send_then. cbn [fst snd].
  destruct (snd (attempt (erasures x d))) eqn:E2.
  - destruct (attempt_ok _ E2) as [-> _].
    unfold clear_dict. cbn [fst snd]. rewrite app_nil_r. reflexivity.
  - reflexivity.
Qed.


Lemma update_same (st : Store) (n : string) (d : Dict) : update st n d n = d.
Proof. unfold update. rewrite String.eqb_refl. reflexivity. Qed.

Lemma update_other (st : Store) (n m : string) (d : Dict) :
  m <> n -> update st n d m = st m.
Proof. intros H. unfold update. apply String.eqb_neq in H. rewrite H. reflexivity. Qed.

Lemma statements_ext (l : list DBDictionary) (st st' : Store) :
  (forall y, In y l -> st' (dict_name y) = st (dict_name y)) ->
  flat_map (fun y => statements y st') l = flat_map (fun y => statements y st) l.
Proof.
  intros H. rewrite !flat_map_concat_map. f_equal. apply map_ext_in.
  intros y Hy. unfold statements. rewrite (H y Hy). reflexivity.
Qed.

(** The dictionaries in order: all flushed and cleared, or flushed and
    cleared up to the one whose statement failed. *)
Lemma flush_all (ds : list DBDictionary) (st : Store) :
  NoDup (map dict_name ds) ->
  let X := for_each ds (flush accepts) st in
  (snd X = Some tt /\
   fst (fst X) = flat_map (fun x => statements x st) ds /\
   forallb accepts (fst (fst X)) = true /\
   (forall n, In n (map dict_name ds) -> snd (fst X) n = clear (st n)) /\
   (forall n, ~ In n (map dict_name ds) -> snd (fst X) n = st n))
  \/
  (snd X = None /\
   exists done x todo okp s after,
     ds = (done ++ x :: todo)%list /\
     statements x st = (okp ++ s :: after)%list /\
     accepts s = false /\
     forallb accepts okp = true /\
     fst (fst X) = (flat_map (fun y => statements y st) done ++ okp ++ [s])%list /\
     forallb accepts (flat_map (fun y => statements y st) done) = true /\
     (forall n, In n (map dict_name done) -> snd (fst X) n = clear (st n)) /\
     (forall n, ~ In n (map dict_name done) -> snd (fst X) n = st n)).
Proof.
  revert st. induction ds as [|x r IH]; intros st Hnd; cbv zeta.
  - left. simpl. repeat split; auto. intros n [].
  - inversion Hnd as [|? ? Hx Hr]; subst.
    cbn [for_each]. unfold bind. rewrite flush_run.
    destruct (snd (attempt (statements x st))) eqn:E.
    + destruct (attempt_ok _ E) as [Ep Eok]. rewrite Ep.
      set (st2 := update st (dict_name x) (clear (st (dict_name x)))).
      assert (Hsame : forall y, In y r -> st2 (dict_name y) = st (dict_name y)).
      { intros y Hy. apply update_other. intros Heq. apply Hx.
        rewrite <- Heq. apply in_map. exact Hy. }
      specialize (IH st2 Hr). cbv zeta in IH.
      destruct (for_each r (flush accepts) st2) as [[sent' st''] res].
      cbn [fst snd] in *.
      destruct IH as [(Hres & Hsent & Hacc & Hin & Hout)
                     |(Hres & done & z & todo & okp & s & after
                       & Hds & Hst & Hs & Hokp & Hsent & Hdacc & Hin & Hout)].
      * left. rewrite Hsent, (statements_ext r st st2 Hsame).
        rewrite (statements_ext r st st2 Hsame) in Hsent.
        repeat split.
        -- exact Hres.
        -- rewrite forallb_app, Eok. rewrite <- Hsent. exact Hacc.
        -- intros n [<-|Hn].
           ++ rewrite Hout by exact Hx. apply update_same.
           ++ rewrite (Hin n Hn). f_equal. apply update_other.
              intros ->. contradiction.
        -- intros n Hn. rewrite Hout by (intros H; apply Hn; right; exact H).
           apply update_other. intros ->. apply Hn. left. reflexivity.
      * right. split; [exact Hres|].
        exists (x :: done), z, todo, okp, s, after.
        assert (Hd : forall y, In y done -> st2 (dict_name y) = st (dict_name y)).
        { intros y Hy. apply Hsame. rewrite Hds. apply in_or_app. left. exact Hy. }
        assert (Hz : st2 (dict_name z) = st (dict_name z)).
        { apply Hsame. rewrite Hds. apply in_or_app. right. left. reflexivity. }
        rewrite (statements_ext done st st2 Hd) in Hsent, Hdacc.
        repeat split.
        -- rewrite Hds. reflexivity.
        -- rewrite <- Hst. unfold statements. rewrite Hz. reflexivity.
        -- exact Hs.
        -- exact Hokp.
        -- rewrite Hsent. cbn [flat_map]. rewrite <- app_assoc. reflexivity.
        -- cbn [flat_map]. rewrite forallb_app, Eok, Hdacc. reflexivity.
        -- intros n [<-|Hn].
           ++ rewrite Hout; [apply update_same|].
              intros H. apply Hx. rewrite Hds, map_app. apply in_or_app. left. exact H.
           ++ rewrite (Hin n Hn). f_equal. apply update_other.
              intros ->. apply Hx. rewrite Hds, map_app. apply in_or_app. left. exact Hn.
        -- intros n Hn. rewrite Hout by (intros H; apply Hn; right; exact H).
           apply update_other. intros ->. apply Hn. left. reflexivity.
    + right. split; [reflexivity|].
      destruct (attempt_fail _ E) as (okp & s & after & Hst & Hs & Hokp & Hp).
      exists [], x, r, okp, s, after. cbn [fst snd flat_map app map].
      repeat split; auto. intros n [].
Qed.

(** A cleared dictionary has nothing to flush. *)
Lemma statements_clear (x : DBDictionary) (st st' : Store) :
  st' (dict_name x) = clear (st (dict_name x)) -> statements x st' = [].
Proof.
  intros H. unfold statements, upserts, erasures. rewrite H. simpl.
  induction (entries (st (dict_name x))) as [|kv r IH]; [reflexivity|exact IH].
Qed.

(** C8. The run of [save()] on an instance whose dictionaries have
    distinct names. Either every statement is accepted: the row is
    saved, then for each dictionary in turn its upserts and after them
    its deletes are sent, every dictionary is cleared and has nothing
    left to flush. Or the row statement fails and nothing else happens.
    Or a statement of some dictionary fails: the dictionaries before it
    were flushed in full and cleared, what was sent for it stops at the
    failing statement, and it and the dictionaries after it keep their
    state, dirty and erased keys included. *)
Theorem save_flushes_then_clears (entry : Entry) (st : Store) :
  NoDup (map dict_name (dictionaries entry)) ->
  let X := save accepts entry st in
  let sent := fst (fst X) in
  let st' := snd (fst X) in
  let all := flat_map (fun x => (upserts x (st (dict_name x))
                                   ++ erasures x (st (dict_name x)))%list) in
  (snd X = Some tt /\
   sent = SaveRow :: all (dictionaries entry) /\
   forallb accepts sent = true /\
   forall x, In x (dictionaries entry) ->
     st' (dict_name x) = clear (st (dict_name x)) /\
     clean (st' (dict_name x)) /\
     statements x st' = [])
  \/
  (snd X = None /\ accepts SaveRow = false /\ sent = [SaveRow] /\
   forall n, st' n = st n)
  \/
  (snd X = None /\
   exists done x todo okp s after,
     dictionaries entry = (done ++ x :: todo)%list /\
     (upserts x (st (dict_name x)) ++ erasures x (st (dict_name x)))%list
       = (okp ++ s :: after)%list /\
     accepts s = false /\
     sent = (SaveRow :: all done ++ okp ++ [s])%list /\
     forallb accepts (SaveRow :: all done ++ okp)%list = true /\
     (forall y, In y done -> st' (dict_name y) = clear (st (dict_name y))) /\
     (forall y, In y (x :: todo) -> st' (dict_name y) = st (dict_name y))).
Proof.
  intros Hnd. cbv zeta.
  assert (Hsave : save accepts entry st =
            if accepts SaveRow
            then (SaveRow :: fst (fst (for_each (dictionaries entry) (flush accepts) st)),
                  snd (fst (for_each (dictionaries entry) (flush accepts) st)),
                  snd (for_each (dictionaries entry) (flush accepts) st))
            else ([SaveRow], st, None)).
  { unfold save, bind, send. destruct (accepts SaveRow); [|reflexivity].
    destruct (for_each (dictionaries entry) (flush accepts) st) as [[? ?] ?].
    reflexivity. }
  rewrite Hsave. clear Hsave.
  destruct (accepts SaveRow) eqn:Erow.
  - pose proof (flush_all (dictionaries entry) st Hnd) as Hall. cbv zeta in Hall.
    destruct (for_each (dictionaries entry) (flush accepts) st) as [[sent' st''] res].
    cbn [fst snd] in *.
    destruct Hall as [(Hres & Hsent & Hacc & Hin & Hout)
                     |(Hres & done & x & todo & okp & s & after
                       & Hds & Hst & Hs & Hokp & Hsent & Hdacc & Hin & Hout)].
    + left. split; [exact Hres|]. split; [rewrite Hsent; reflexivity|].
      split; [cbn [app forallb]; rewrite Erow, Hacc; reflexivity|].
      intros x Hx.
      assert (Hc : st'' (dict_name x) = clear (st (dict_name x)))
        by (apply Hin, in_map, Hx).
      split; [exact Hc|]. split.
      * rewrite Hc. unfold clean, dirtyKeys, clear. simpl. split; [|reflexivity].
        induction (entries (st (dict_name x))) as [|kv r IH]; [reflexivity|exact IH].
      * apply (statements_clear x st). exact Hc.
    + right. right. split; [exact Hres|].
      exists done, x, todo, okp, s, after.
      assert (Hndd : NoDup (map dict_name (done ++ x :: todo)))
        by (rewrite <- Hds; exact Hnd).
      rewrite map_app in Hndd. cbn [map] in Hndd.
      repeat split.
      * exact Hds.
      * exact Hst.
      * exact Hs.
      * rewrite Hsent. reflexivity.
      * cbn [app forallb]. rewrite Erow, forallb_app.
        unfold statements in Hdacc. rewrite Hdacc, Hokp. reflexivity.
      * intros y Hy. apply Hin, in_map, Hy.
      * intros y Hy. apply Hout. intros Hin'.
        apply NoDup_remove_2 in Hndd as Hx'.
        destruct Hy as [<-|Hy].
        -- apply Hx'. apply in_or_app. left. exact Hin'.
        -- clear -Hndd Hin' Hy.
           apply (in_map dict_name) in Hy.
           revert Hndd Hin'. generalize (map dict_name done) as l.
           induction l as [|a l IH]; intros Hndd Hin'; [destruct Hin'|].
           inversion Hndd as [|? ? Ha Hl]; subst. destruct Hin' as [E|Hin'].
           ++ apply Ha. rewrite E. apply in_or_app. right. right. exact Hy.
           ++ apply IH; assumption.
  - right. left. cbn [fst snd]. repeat split; auto.
Qed.

End FlushFacts.

Lemma save_flushes_then_clears_witness :
  NoDup (map dict_name (dictionaries Sample.Bag)) /\
  (let st := Sample.Bag_store in
   let X := Flush.save Sample.no_deletes Sample.Bag st in
   let all := flat_map (fun x => (Flush.upserts x (st (dict_name x))
                                    ++ Flush.erasures x (st (dict_name x)))%list) in
   snd X = None /\
   exists done x todo okp s after,
     dictionaries Sample.Bag = (done ++ x :: todo)%list /\
     (Flush.upserts x (st (dict_name x)) ++ Flush.erasures x (st (dict_name x)))%list
       = (okp ++ s :: after)%list /\
     Sample.no_deletes s = false /\
     fst (fst X) = (Flush.SaveRow :: all done ++ okp ++ [s])%list /\
     forallb Sample.no_deletes (Flush.SaveRow :: all done ++ okp)%list = true /\
     (forall y, In y done ->
        snd (fst X) (dict_name y) = Flush.clear (st (dict_name y))) /\
     (forall y, In y (x :: todo) -> snd (fst X) (dict_name y) = st (dict_name y))).
Proof.
  assert (Hnd : NoDup (map dict_name (dictionaries Sample.Bag))).
  { repeat constructor; simpl; intuition discriminate. }
  split; [exact Hnd|].
  destruct (save_flushes_then_clears Sample.no_deletes Sample.Bag Sample.Bag_store Hnd)
    as [(Hres & _)|[(_ & Hrow & _)|H]].
  - vm_compute in Hres. discriminate Hres.
  - discriminate Hrow.
  - exact H.
Defined.

(** * Properties of the model builder *)

Section BuilderFacts.
Import Builder.

Lemma split_cons (sep : ascii) (s : string) : exists h t, split sep s = h :: t.
Proof.
  induction s as [|c r IH]; simpl; [eauto|].
  destruct (Ascii.eqb c sep); [eauto|].
  destruct IH as (h & t & ->). eauto.
Qed.

Lemma check_typeargs_head (ta : string) (r : list string) :
  check_typeargs (ta :: r) = Ok tt -> exists t, parse_type ta = Some t.
Proof.
  simpl. destruct (parse_type ta) as [t|]; [eauto|discriminate].
Qed.

Lemma handleMember_sound (owner : string) (m : Member)
  (acc acc' : list Field * list DBDictionary) :
  sound acc -> handleMember owner m acc = Ok acc' -> sound acc'.
Proof.
  intros [Hf Hd]. unfold handleMember.
  destruct (negb (is_property m)); [intros [= <-]; split; assumption|].
  destruct (negb (isField m)); [intros [= <-]; split; assumption|].
  destruct (member_type m) as [ty|]; [|discriminate].
  destruct (String.prefix "TSDBDict" ty).
  - destruct (nth_error (split "<" ty) 1) as [inner|]; [|discriminate].
    set (typeargs := split "," (hd EmptyString (split ">" inner))).
    destruct (check_typeargs typeargs) as [[]|e] eqn:E; [|discriminate].
    simpl. intros [= <-]. split; [exact Hf|]. cbn [snd].
    intros x Hx. apply in_app_or in Hx as [Hx|[<-|[]]]; [auto|].
    cbn [keyType]. unfold typearg.
    destruct (split_cons "," (hd EmptyString (split ">" inner))) as (h & t & Hs).
    fold typeargs in Hs. rewrite Hs in *. simpl.
    apply check_typeargs_head in E. exact E.
  - destruct (parse_type ty) as [t|]; [|discriminate].
    destruct (is_string (Some t) && isPrimaryKeyMember m) eqn:E; [discriminate|].
    destruct (member_initializer m) as [defValue|]; [|discriminate].
    intros [= <-]. split; [|exact Hd]. cbn [fst].
    intros f Hin Hpk. apply in_app_or in Hin as [Hin|[<-|[]]]; [auto|].
    cbn [isPrimaryKey type] in *. rewrite Hpk, andb_true_r in E. exact E.
Qed.

Lemma handleMembers_sound (owner : string) (ms : list Member)
  (acc acc' : list Field * list DBDictionary) :
  sound acc -> handleMembers owner ms acc = Ok acc' -> sound acc'.
Proof.
  revert acc. induction ms as [|m r IH]; intros acc Hs.
  - intros [= <-]. exact Hs.
  - simpl. destruct (handleMember owner m acc) as [acc1|e] eqn:E; [|discriminate].
    simpl. apply IH. eapply handleMember_sound; eauto.
Qed.

(** C6 (as the code has it). For a class that [handleClass] registers:
    its table has a primary key and none of its primary keys is a
    string; the key type of each dictionary is one of the method types,
    string included; and in the table of a dictionary the only primary
    key that can be a string is [map_key], when the key type of the
    dictionary is string. *)
Theorem registered_primary_keys (node : ClassDeclaration) (entry : Entry) :
  handleClass node = Ok (Some entry) ->
  primaryKeys (fields entry) <> [] /\
  (forall f, In f (fields entry) -> isPrimaryKey f = true ->
     is_string (type f) = false) /\
  (forall x, In x (dictionaries entry) ->
     (exists t, keyType x = Some t) /\
     (forall f, In f (dictFields entry x) -> isPrimaryKey f = true ->
        is_string (type f) = true ->
        f = mkField "map_key" (Some T_string) true "" /\
        keyType x = Some T_string)).
Proof.
  unfold handleClass.
  destruct (fold_left table_decorator (class_decorators node) None) as [d|];
    [|discriminate].
  destruct (handleMembers (class_name node) (members node) ([], [])) as [acc|e] eqn:E;
    [|discriminate].
  simpl. destruct (primaryKeys (fst acc)) as [|k ks] eqn:Ek; [discriminate|].
  intros [= <-]. cbn [fields dictionaries].
  assert (Hs : sound acc).
  { eapply handleMembers_sound; [|exact E]. split; intros ? []. }
  destruct Hs as [Hf Hd].
  split; [rewrite Ek; discriminate|]. split; [exact Hf|].
  intros x Hx. split; [apply Hd, Hx|].
  intros f Hin Hpk Hstr. unfold dictFields in Hin. cbn [fields] in Hin.
  apply in_app_or in Hin as [Hin|[<-|[<-|[]]]].
  - apply filter_In in Hin as [Hin _]. rewrite (Hf f Hin Hpk) in Hstr. discriminate.
  - cbn [type] in Hstr. destruct (keyType x) as [[]|]; try discriminate Hstr.
    split; reflexivity.
  - discriminate Hpk.
Qed.

End BuilderFacts.

Lemma registered_primary_keys_witness :
  Builder.handleClass Sample.Guild_class = Builder.Ok (Some Sample.Guild) /\
  primaryKeys (fields Sample.Guild) <> [] /\
  (forall f, In f (fields Sample.Guild) -> isPrimaryKey f = true ->
     is_string (type f) = false) /\
  (forall x, In x (dictionaries Sample.Guild) ->
     (exists t, keyType x = Some t) /\
     (forall f, In f (Builder.dictFields Sample.Guild x) -> isPrimaryKey f = true ->
        is_string (type f) = true ->
        f = mkField "map_key" (Some T_string) true "" /\
        keyType x = Some T_string)).
Proof.
  split; [reflexivity|].
  apply (registered_primary_keys Sample.Guild_class Sample.Guild). reflexivity.
Defined.

(** C6, counterexample. The class [Guild], whose dictionary [tags] has
    string keys, is registered, and the table [guild_tags] made for the
    dictionary has the primary key [map_key] of type string. *)
Lemma string_map_key_registered :
  Builder.handleClass Sample.Guild_class = Builder.Ok (Some Sample.Guild) /\
  Builder.tables Sample.Guild =
    [ ("Guild", [mkField "id" (Some T_uint32) true "0";
                 mkField "motd" (Some T_string) false (dq ++ dq)]);
      ("guild_tags", [mkField "id" (Some T_uint32) true "0";
                      mkField "map_key" (Some T_string) true "";
                      mkField "map_value" (Some T_uint32) false "0"]) ] /\
  (exists table f,
     In table (Builder.tables Sample.Guild) /\ In f (snd table) /\
     isPrimaryKey f = true /\ is_string (type f) = true).
Proof.
  split; [reflexivity|]. split; [reflexivity|].
  exists ("guild_tags", [mkField "id" (Some T_uint32) true "0";
                         mkField "map_key" (Some T_string) true "";
                         mkField "map_value" (Some T_uint32) false "0"]),
         (mkField "map_key" (Some T_string) true "").
  simpl. auto 10.
Qed.

(** * Further properties of the table creator *)

Section DriftFacts.
Import Creator Drift.

Variable tableName : string.
Variable dbtype : DBType.
Variable fields : list Field.
Variable db : string.

Local Abbreviation turn := (turn tableName dbtype fields db).
Local Abbreviation loop := (loop tableName dbtype fields db).
Local Abbreviation missing := (missing tableName dbtype).
Local Abbreviation missing_one := (missing_one tableName dbtype).
Local Abbreviation backfill := (backfill tableName dbtype fields).
Local Abbreviation create := (create tableName dbtype fields).
Local Abbreviation tableGeneration := (tableGeneration tableName dbtype fields db).
Local Abbreviation plan := (plan tableName dbtype fields db).
Local Abbreviation rebuildTriggered := (rebuildTriggered tableName dbtype fields db).
Local Abbreviation asked := (asked tableName dbtype fields db).
Local Abbreviation breaks := (breaks fields).
Local Abbreviation find_field := (find_field fields).
Local Abbreviation key_usage := (key_usage_sql tableName db).

(** The turn of a row, by the declared field it names. *)
Lemma turn_find (c : Column) (l : Locals) :
  turn c l =
    (Fetch "QueryWorld" (key_usage (COLUMN_NAME c))
       :: fst (fst (match find_field (COLUMN_NAME c) with
                    | Some x => matched tableName dbtype x c l
                    | None => removed tableName dbtype c l
                    end)),
     snd (fst (match find_field (COLUMN_NAME c) with
               | Some x => matched tableName dbtype x c l
               | None => removed tableName dbtype c l
               end)),
     snd (match find_field (COLUMN_NAME c) with
          | Some x => matched tableName dbtype x c l
          | None => removed tableName dbtype c l
          end)).
Proof.
  unfold Creator.turn. rewrite chain_find. fold (find_field (COLUMN_NAME c)).
  destruct (match find_field (COLUMN_NAME c) with
            | Some x => _ | None => _ end) as [[evs l'] b].
  reflexivity.
Qed.

(** A turn without [ask] is the key-usage query alone, and stays in the loop. *)
Lemma turn_quiet (c : Column) (l : Locals) :
  filter is_ask (fst (fst (turn c l))) = [] ->
  fst (fst (turn c l)) = [Fetch "QueryWorld" (key_usage (COLUMN_NAME c))] /\
  breaks c = false.
Proof.
  rewrite <- (turn_brk tableName dbtype fields db c l), turn_find. cbn [fst snd].
  destruct (find_field (COLUMN_NAME c)) as [x|]; [|discriminate].
  matched_cases x c; intros H; try discriminate H; auto.
Qed.

Lemma loop_quiet (rows : list Column) (l : Locals) :
  filter is_ask (fst (loop rows l)) = [] ->
  fst (loop rows l) = key_usage_queries tableName db rows /\
  (forall c, In c rows -> breaks c = false).
Proof.
  revert l. induction rows as [|c rest IH]; intros l.
  - intros _. split; [reflexivity|intros c []].
  - rewrite loop_cons. destruct (breaks c) eqn:Eb.
    + intros H. apply turn_quiet in H as [_ H]. congruence.
    + cbn [fst]. rewrite filter_app. intros H.
      apply app_eq_nil in H as [H1 H2].
      apply turn_quiet in H1 as [H1 _]. apply IH in H2 as [H2 H3].
      rewrite H1, H2. split; [reflexivity|].
      intros c' [<-|Hc']; auto.
Qed.

(** The tests for missing fields, when none of them asks. *)
Lemma missing_quiet (fs : list Field) (l : Locals) :
  should_create l = false ->
  filter is_ask (fst (missing fs l)) = [] ->
  fst (missing fs l) =
    map (fun x => AddColumn tableName dbtype (name x) (getWriteSQLType (type x)))
        (filter (fun x => negb (isPrimaryKey x) && negb (is_found (name x) l)) fs) /\
  snd (missing fs l) = l.
Proof.
  induction fs as [|x rest IH]; intros Hs; [auto|].
  rewrite missing_cons. cbn [fst snd filter]. unfold Creator.missing_one.
  rewrite Hs. cbn [negb andb].
  destruct (is_found (name x) l); cbn [negb fst snd app].
  - rewrite andb_false_r. exact (IH Hs).
  - destruct (isPrimaryKey x); cbn [negb andb fst snd app filter is_ask map];
      [discriminate|].
    intros H. destruct (IH Hs H) as [-> ->]. auto.
Qed.

Lemma missing_none (fs : list Field) (l : Locals) :
  should_create l = false ->
  (forall y, In y fs -> is_found (name y) l = true) ->
  missing fs l = ([], l).
Proof.
  intros Hs. induction fs as [|x rest IH]; intros Hf; [reflexivity|].
  rewrite missing_cons. unfold Creator.missing_one.
  rewrite Hs, (Hf x (or_introl eq_refl)). cbn [negb andb fst snd app].
  rewrite IH by (intros y Hy; apply Hf; right; exact Hy). reflexivity.
Qed.

(** The run on a catalog that has rows, from its two phases. *)
Lemma run_rows (c : Column) (rest : list Column) :
  tableGeneration (c :: rest) =
    let r := loop (c :: rest) (mkLocals false []) in
    let m := missing fields (snd r) in
    (Fetch "QueryWorld" (columns_sql tableName db)
       :: ((fst r ++ fst m) ++ create (snd m) ++ backfill)%list, snd m).
Proof.
  unfold Creator.tableGeneration. cbv zeta.
  change (set_should_create false (mkLocals true [])) with (mkLocals false []).
  destruct (loop (c :: rest) (mkLocals false [])) as [evs1 l2]. cbn [fst snd].
  destruct (missing fields l2) as [evs2 l3]. reflexivity.
Qed.

(** X1. On a catalog that is in line with the declaration (it has rows,
    every row names a declared field and has, in upper case, the read
    type of that field, and every declared field has a row) the run is
    the query on COLUMNS, one key-usage query per row, and the UPDATEs
    of the backfill: [ask] is not called, nothing is altered, dropped or
    created, and [should_create] ends unset. The backfill is executed
    all the same. *)
Theorem in_sync_run (rows : list Column) :
  in_sync fields rows ->
  fst (tableGeneration rows) =
    (Fetch "QueryWorld" (columns_sql tableName db)
       :: key_usage_queries tableName db rows ++ backfill)%list /\
  rebuildTriggered rows = false.
Proof.
  intros (Hne & Hrows & Hfields).
  assert (Hturn : forall c l, In c rows ->
            fst (fst (turn c l)) = [Fetch "QueryWorld" (key_usage (COLUMN_NAME c))] /\
            breaks c = false).
  { intros c l Hc. destruct (Hrows c Hc) as (x & Hx & Ht).
    apply turn_quiet. rewrite turn_find, Hx. cbn [fst].
    unfold Creator.matched. rewrite Ht, String.eqb_refl. reflexivity. }
  assert (Hnb : forall c, In c rows -> breaks c = false).
  { intros c Hc. apply (Hturn c (mkLocals false []) Hc). }
  assert (Hloop : forall l, fst (loop rows l) = key_usage_queries tableName db rows).
  { clear Hne Hrows Hfields Hnb. induction rows as [|c rest IH]; intros l; [reflexivity|].
    destruct (Hturn c l (or_introl eq_refl)) as [He Hb].
    rewrite loop_cons, Hb. cbn [fst]. rewrite He.
    rewrite IH by (intros c' l' Hc'; apply Hturn; right; exact Hc').
    reflexivity. }
  destruct rows as [|c rest]; [congruence|].
  unfold Creator.rebuildTriggered. rewrite run_rows. cbv zeta. cbn [fst snd].
  set (l2 := snd (loop (c :: rest) (mkLocals false []))).
  assert (Hs : should_create l2 = false).
  { unfold l2. rewrite loop_should_create by exact Hnb. reflexivity. }
  assert (Hm : missing fields l2 = ([], l2)).
  { apply missing_none; [exact Hs|]. intros y Hy. unfold l2.
    rewrite (found_after_loop tableName dbtype fields db y (c :: rest) Hy Hnb).
    apply existsb_exists. destruct (Hfields y Hy) as (c' & Hc' & E).
    exists c'. split; [exact Hc'|]. rewrite E. apply String.eqb_refl. }
  rewrite Hm, Hloop. cbn [fst snd]. unfold Creator.create. rewrite Hs.
  rewrite app_nil_r. split; reflexivity.
Qed.

Lemma key_usage_not_exec (rows : list Column) :
  filter is_exec (key_usage_queries tableName db rows) = [].
Proof. induction rows as [|c r IH]; [reflexivity|exact IH]. Qed.

Lemma additions_exec (l : list Field) :
  filter is_exec
    (map (fun x => AddColumn tableName dbtype (name x) (getWriteSQLType (type x))) l)
  = map (fun x => AddColumn tableName dbtype (name x) (getWriteSQLType (type x))) l.
Proof. induction l as [|a r IH]; [reflexivity|]. cbn. rewrite IH. reflexivity. Qed.

(** X2. On a catalog that has rows, a run that never calls [ask]
    executes ALTER TABLE .. ADD for the declared fields that are not
    primary keys and have no row, in declaration order, then the
    backfill, and nothing else; no row takes the [break] and
    [should_create] ends unset. *)
Theorem quiet_run_only_adds (rows : list Column) :
  rows <> [] ->
  asked rows = [] ->
  plan rows = (additions tableName dbtype fields rows ++ backfill)%list /\
  rebuildTriggered rows = false /\
  (forall c, In c rows -> breaks c = false).
Proof.
  intros Hne Hq. destruct rows as [|c rest]; [congruence|]. clear Hne.
  unfold Creator.asked in Hq. unfold Creator.plan, Creator.rebuildTriggered.
  rewrite run_rows in *. cbv zeta in *. cbn [fst snd] in *.
  change (fun e : Event => match e with Ask _ => true | _ => false end)
    with is_ask in Hq.
  cbn [filter is_ask] in Hq. rewrite !filter_app in Hq.
  apply app_eq_nil in Hq as [Hq _]. apply app_eq_nil in Hq as [Hq1 Hq2].
  apply loop_quiet in Hq1 as [Hl Hnb].
  set (rows := c :: rest) in *.
  set (l2 := snd (loop rows (mkLocals false []))) in *.
  assert (Hs : should_create l2 = false).
  { unfold l2. rewrite loop_should_create by exact Hnb. reflexivity. }
  destruct (missing_quiet fields l2 Hs Hq2) as [Hm1 Hm2].
  rewrite Hl, Hm1, Hm2. unfold Creator.create. rewrite Hs.
  cbn [filter is_exec app]. rewrite !filter_app, backfill_exec.
  rewrite key_usage_not_exec, additions_exec. cbn [app filter].
  split; [|split; [reflexivity|exact Hnb]].
  f_equal. unfold additions. f_equal. apply filter_ext_in. intros y Hy.
  unfold l2. rewrite (found_after_loop tableName dbtype fields db y rows Hy Hnb).
  reflexivity.
Qed.


Lemma prefix_app (a b c : string) :
  String.prefix (a ++ b) (a ++ c) = String.prefix b c.
Proof.
  induction a as [|x a IH]; [reflexivity|]. simpl.
  destruct (ascii_dec x x) as [_|N]; [exact IH|congruence].
Qed.

Lemma is_modify_alter (fn verb tail : string) :
  is_modify tableName (Exec fn ("ALTER TABLE `" ++ tableName ++ "` " ++ verb ++ tail))
  = String.prefix "MODIFY " (verb ++ tail).
Proof.
  unfold is_modify.
  change ("ALTER TABLE `" ++ tableName ++ "` MODIFY ")
    with ("ALTER TABLE `" ++ (tableName ++ "` " ++ "MODIFY ")).
  change ("ALTER TABLE `" ++ tableName ++ "` " ++ verb ++ tail)
    with ("ALTER TABLE `" ++ (tableName ++ "` " ++ verb ++ tail)).
  rewrite prefix_app, prefix_app, prefix_app. reflexivity.
Qed.

Lemma DropColumn_not_modify (column : string) :
  is_modify tableName (DropColumn tableName dbtype column) = false.
Proof. exact (is_modify_alter _ "DROP `" (column ++ "`;")). Qed.

Lemma AddColumn_not_modify (column sqltype : string) :
  is_modify tableName (AddColumn tableName dbtype column sqltype) = false.
Proof. exact (is_modify_alter _ "ADD `" (column ++ "` " ++ sqltype ++ ";")). Qed.

Lemma missing_not_modify (fs : list Field) (l : Locals) :
  Forall (fun e => is_modify tableName e = false) (fst (missing fs l)).
Proof.
  revert l. induction fs as [|x rest IH]; intros l; [constructor|].
  rewrite missing_cons. cbn [fst]. apply Forall_app. split; [|apply IH].
  unfold Creator.missing_one.
  destruct (negb (should_create l) && negb (is_found (name x) l));
    [destruct (isPrimaryKey x)|]; repeat constructor.
  apply AddColumn_not_modify.
Qed.

(** A statement of a turn that changes a type in place. *)
Lemma turn_modify (c : Column) (l : Locals) (e : Event) :
  In e (fst (fst (turn c l))) -> is_modify tableName e = true ->
  exists x,
    find_field (COLUMN_NAME c) = Some x /\
    e = ModifyColumnType tableName dbtype x /\
    was_pk c = false /\
    is_string (type x) = false /\
    JS.toUpperCase (COLUMN_TYPE c) <> "TEXT" /\
    JS.toUpperCase (COLUMN_TYPE c) <> getReadSQLType (type x).
Proof.
  rewrite turn_find. cbn [fst]. intros [<-|Hin]; [discriminate|]. revert Hin.
  destruct (find_field (COLUMN_NAME c)) as [x|].
  - unfold Creator.matched.
    destruct (String.eqb (JS.toUpperCase (COLUMN_TYPE c)) (getReadSQLType (type x))) eqn:E1;
      cbn [negb fst]; [intros []|].
    destruct (is_string (type x)) eqn:E2; cbn [fst].
    { intros [<-|[<-|[<-|[]]]] H; try discriminate H.
      - rewrite DropColumn_not_modify in H. discriminate.
      - rewrite AddColumn_not_modify in H. discriminate. }
    destruct (String.eqb (JS.toUpperCase (COLUMN_TYPE c)) "TEXT") eqn:E3; cbn [fst].
    { intros [<-|[<-|[<-|[]]]] H; try discriminate H.
      - rewrite DropColumn_not_modify in H. discriminate.
      - rewrite AddColumn_not_modify in H. discriminate. }
    destruct (was_pk c) eqn:E4; cbn [fst].
    { intros [<-|[]] H. discriminate H. }
    intros [<-|[<-|[]]] H; [discriminate H|].
    exists x. apply String.eqb_neq in E1, E3. auto 10.
  - cbn [removed fst]. intros [<-|[<-|[]]] H; [discriminate H|].
    rewrite DropColumn_not_modify in H. discriminate.
Qed.

Lemma loop_modify (rows : list Column) (l : Locals) (e : Event) :
  In e (fst (loop rows l)) -> is_modify tableName e = true ->
  exists c, In c rows /\ In e (fst (fst (turn c l))).
Proof.
  revert l. induction rows as [|c rest IH]; intros l; [intros []|].
  rewrite loop_cons. destruct (breaks c).
  - intros H _. exists c. split; [left; reflexivity|exact H].
  - cbn [fst]. intros H Hm. apply in_app_or in H as [H|H].
    + exists c. split; [left; reflexivity|exact H].
    + destruct (IH _ H Hm) as (c' & Hc' & He). exists c'. split; [right; exact Hc'|].
      rewrite (turn_events_locals tableName dbtype fields db c' l
                 (snd (fst (turn c l)))). exact He.
Qed.

(** X3. Every ALTER TABLE .. MODIFY that a run executes is the one
    written for a declared field that is not a string, on a row with the
    name of that field whose column is in no key and whose type, in
    upper case, is neither TEXT nor the read type of the field. *)
Theorem modify_only_unkeyed (rows : list Column) (e : Event) :
  In e (plan rows) -> is_modify tableName e = true ->
  exists c x,
    In c rows /\
    find_field (COLUMN_NAME c) = Some x /\
    e = ModifyColumnType tableName dbtype x /\
    was_pk c = false /\
    is_string (type x) = false /\
    JS.toUpperCase (COLUMN_TYPE c) <> "TEXT" /\
    JS.toUpperCase (COLUMN_TYPE c) <> getReadSQLType (type x).
Proof.
  intros Hin Hm.
  assert (Hcb : forall l, Forall (fun e => is_modify tableName e = false)
                            (create l ++ backfill)%list).
  { intros l. apply Forall_app. split.
    - unfold Creator.create. destruct (should_create l); repeat constructor.
    - unfold Creator.backfill. apply Forall_map, Forall_forall. intros y _. reflexivity. }
  unfold Creator.plan in Hin. apply filter_In in Hin as [Hin _].
  destruct rows as [|c0 rest].
  - exfalso. cbn in Hin. destruct Hin as [<-|Hin]; [discriminate|].
    pose proof (Hcb (mkLocals true [])) as H. rewrite Forall_forall in H.
    rewrite (H e Hin) in Hm. discriminate.
  - rewrite run_rows in Hin. cbv zeta in Hin. cbn [fst] in Hin.
    destruct Hin as [<-|Hin]; [discriminate|].
    apply in_app_or in Hin as [Hin|Hin].
    + apply in_app_or in Hin as [Hin|Hin].
      * destruct (loop_modify _ _ _ Hin Hm) as (c & Hc & He).
        destruct (turn_modify c _ e He Hm) as (x & H). exists c, x. tauto.
      * exfalso. pose proof (missing_not_modify fields
                   (snd (loop (c0 :: rest) (mkLocals false [])))) as H.
        rewrite Forall_forall in H. rewrite (H e Hin) in Hm. discriminate.
    + exfalso. pose proof (Hcb (snd (missing fields
                   (snd (loop (c0 :: rest) (mkLocals false [])))))) as H.
      rewrite Forall_forall in H. rewrite (H e Hin) in Hm. discriminate.
Qed.


Lemma upper_lower_char (c : ascii) :
  JS.upper_char (JS.lower_char c) = JS.upper_char c.
Proof. destruct c as [[] [] [] [] [] [] [] []]; reflexivity. Qed.

Lemma toUpperCase_toLowerCase (s : string) :
  JS.toUpperCase (JS.toLowerCase s) = JS.toUpperCase s.
Proof.
  unfold JS.toUpperCase, JS.toLowerCase.
  induction s as [|c s IH]; [reflexivity|]. simpl.
  rewrite upper_lower_char, IH. reflexivity.
Qed.

(** X4. The type of a column is compared without regard to letter case:
    when a row names a declared field and its type equals the read type
    of the field up to the case of letters, the turn of the row is its
    key-usage query alone and does not leave the loop. *)
Theorem type_match_ignores_case (c : Column) (x : Field) (t : FieldType) (l : Locals) :
  find_field (COLUMN_NAME c) = Some x ->
  type x = Some t ->
  JS.toLowerCase (COLUMN_TYPE c) = JS.toLowerCase (getReadSQLType (Some t)) ->
  fst (fst (turn c l)) = [Fetch "QueryWorld" (key_usage (COLUMN_NAME c))] /\
  breaks c = false.
Proof.
  intros Hx Ht Hc. apply turn_quiet. rewrite turn_find, Hx. cbn [fst].
  assert (E : JS.toUpperCase (COLUMN_TYPE c) = getReadSQLType (type x)).
  { rewrite <- toUpperCase_toLowerCase, Hc, toUpperCase_toLowerCase, Ht.
    destruct t; reflexivity. }
  unfold Creator.matched. rewrite E, String.eqb_refl. reflexivity.
Qed.

(** X5. The rows after the first one that takes the [break] are never
    read: the run on the whole catalog is the run on the catalog cut
    after that row, in its events and in its locals. *)
Theorem rows_after_break_ignored (pre post : list Column) (c : Column) :
  (forall p, In p pre -> breaks p = false) ->
  breaks c = true ->
  tableGeneration (pre ++ c :: post) = tableGeneration (pre ++ [c]).
Proof.
  intros Hpre Hc.
  assert (E : forall l, loop (pre ++ c :: post) l = loop (pre ++ [c]) l).
  { intros l. rewrite !loop_app by exact Hpre. rewrite !loop_cons, Hc. reflexivity. }
  unfold Creator.tableGeneration.
  destruct pre as [|p pre']; cbn [app] in *; rewrite E; reflexivity.
Qed.

End DriftFacts.

(** X1, witness: [Player] on the catalog that CREATE TABLE leaves. *)
Lemma in_sync_run_witness :
  Drift.in_sync Sample.Player_fields Cases.Player_rows /\
  fst (Creator.tableGeneration "Player" world Sample.Player_fields "w" Cases.Player_rows) =
    (Creator.Fetch "QueryWorld" (Creator.columns_sql "Player" "w")
       :: Drift.key_usage_queries "Player" "w" Cases.Player_rows
       ++ Creator.backfill "Player" world Sample.Player_fields)%list /\
  Creator.rebuildTriggered "Player" world Sample.Player_fields "w" Cases.Player_rows = false.
Proof.
  assert (H : Drift.in_sync Sample.Player_fields Cases.Player_rows).
  { split; [discriminate|]. split.
    - intros c [<-|[<-|[<-|[]]]]; eexists; split; reflexivity.
    - intros x [<-|[<-|[<-|[]]]];
        [exists (nth 0 Cases.Player_rows Sample.id_ok)
        |exists (nth 1 Cases.Player_rows Sample.id_ok)
        |exists (nth 2 Cases.Player_rows Sample.id_ok)];
        (split; [simpl; auto|reflexivity]). }
  split; [exact H|].
  exact (in_sync_run "Player" world Sample.Player_fields "w" _ H).
Defined.

(** X2, witness: [Player] on a catalog that has only [id]. *)
Lemma quiet_run_only_adds_witness :
  Creator.asked "Player" world Sample.Player_fields "w" [Sample.id_ok] = [] /\
  Creator.plan "Player" world Sample.Player_fields "w" [Sample.id_ok] =
    (Drift.additions "Player" world Sample.Player_fields [Sample.id_ok]
       ++ Creator.backfill "Player" world Sample.Player_fields)%list /\
  Creator.rebuildTriggered "Player" world Sample.Player_fields "w" [Sample.id_ok] = false /\
  (forall c, In c [Sample.id_ok] -> Creator.breaks Sample.Player_fields c = false).
Proof.
  assert (H1 : [Sample.id_ok] <> []) by discriminate.
  assert (H2 : Creator.asked "Player" world Sample.Player_fields "w" [Sample.id_ok] = [])
    by reflexivity.
  split; [exact H2|].
  exact (quiet_run_only_adds "Player" world Sample.Player_fields "w" _ H1 H2).
Defined.

(** X3, witness: [Player] on a catalog where [gold] is a signed column. *)
Lemma modify_only_unkeyed_witness :
  In (Creator.ModifyColumnType "Player" world Cases.gold_field)
     (Creator.plan "Player" world Sample.Player_fields "w"
        [Sample.id_ok; Cases.gold_signed]) /\
  exists c x,
    In c [Sample.id_ok; Cases.gold_signed] /\
    Creator.find_field Sample.Player_fields (Creator.COLUMN_NAME c) = Some x /\
    Creator.ModifyColumnType "Player" world Cases.gold_field
      = Creator.ModifyColumnType "Player" world x /\
    Creator.was_pk c = false /\
    is_string (type x) = false /\
    JS.toUpperCase (Creator.COLUMN_TYPE c) <> "TEXT" /\
    JS.toUpperCase (Creator.COLUMN_TYPE c) <> Creator.getReadSQLType (type x).
Proof.
  assert (H1 : In (Creator.ModifyColumnType "Player" world Cases.gold_field)
                  (Creator.plan "Player" world Sample.Player_fields "w"
                     [Sample.id_ok; Cases.gold_signed]))
    by (vm_compute; auto).
  split; [exact H1|].
  apply (modify_only_unkeyed "Player" world Sample.Player_fields "w" _ _ H1).
  reflexivity.
Defined.

(** X4, witness: [id] of [Player] with its type in mixed case. *)
Lemma type_match_ignores_case_witness :
  fst (fst (Creator.turn "Player" world Sample.Player_fields "w" Cases.id_mixed_case
              (Creator.mkLocals false []))) =
    [Creator.Fetch "QueryWorld"
       (Creator.key_usage_sql "Player" "w" (Creator.COLUMN_NAME Cases.id_mixed_case))] /\
  Creator.breaks Sample.Player_fields Cases.id_mixed_case = false.
Proof.
  apply (type_match_ignores_case "Player" world Sample.Player_fields "w"
           Cases.id_mixed_case Sample.id_field T_uint32); reflexivity.
Defined.

(** X5, witness: [Player] on a catalog with [legacy], the primary key in
    a drifted type, and a row after it. *)
Lemma rows_after_break_ignored_witness :
  Creator.tableGeneration "Player" world Sample.Player_fields "w"
    ([Sample.legacy] ++ Sample.id_drifted :: [Cases.gold_signed])
  = Creator.tableGeneration "Player" world Sample.Player_fields "w"
      ([Sample.legacy] ++ [Sample.id_drifted]).
Proof.
  apply (rows_after_break_ignored "Player" world Sample.Player_fields "w").
  - intros p [<-|[]]. reflexivity.
  - reflexivity.
Defined.

(** X6. [getWriteSQLType] of a field type is [getReadSQLType] of it
    without the parenthesised widths, and two type slots have the same
    read type exactly when they have the same write type. *)
Theorem read_write_types :
  (forall t : FieldType,
     Drift.drop_parens false (Creator.getReadSQLType (Some t))
     = Creator.getWriteSQLType (Some t)) /\
  (forall a b : TypeSlot,
     Creator.getReadSQLType a = Creator.getReadSQLType b <->
     Creator.getWriteSQLType a = Creator.getWriteSQLType b).
Proof.
  split.
  - intros t. destruct t; reflexivity.
  - intros [[]|] [[]|]; split; intros H; try reflexivity; discriminate H.
Qed.

Lemma substring_prefix (t u : string) : substring 0 (String.length t) (t ++ u) = t.
Proof.
  induction t as [|c t IH]; simpl.
  - destruct u; reflexivity.
  - rewrite IH. reflexivity.
Qed.

Lemma length_snoc (s : string) (b : ascii) :
  String.length (s ++ String b EmptyString) = S (String.length s).
Proof. induction s as [|c s IH]; simpl; [reflexivity|]. rewrite IH. reflexivity. Qed.

(** X7. The default of a string field whose initializer is written
    between double or single quotes, as the backfill statement has it
    once C++ has read the literal: the opening quote, read through the
    backslash put before it, the content, and a double quote in the
    place of the last character, whatever quote the initializer was
    closed with. *)
Theorem string_default_rewritten (n : string) (pk : bool) (a b : ascii) (s : string) :
  Cxx.is_quote a = true ->
  Cxx.plain s = true ->
  Cxx.unescape
    (sqlInitialization
       (mkField n (Some T_string) pk (String a (s ++ String b EmptyString))))
  = String a (s ++ dq).
Proof.
  intros Ha Hp. unfold sqlInitialization. cbn [type is_string initialization].
  unfold JS.slice_to.
  replace (String.length (String a (s ++ String b EmptyString)) - 1)
    with (String.length (String a s))
    by (simpl; rewrite length_snoc; lia).
  change (String a (s ++ String b EmptyString))
    with (String a s ++ String b EmptyString).
  rewrite substring_prefix.
  change (Cxx.unescape (bs ++ String a s ++ bs ++ dq))
    with (String (Cxx.escaped a) (Cxx.unescape (s ++ bs ++ dq))).
  rewrite plain_unescape by exact Hp.
  assert (E : Cxx.escaped a = a).
  { unfold Cxx.is_quote in Ha. apply orb_prop in Ha as [Ha|Ha];
      apply Ascii.eqb_eq in Ha; subst a; reflexivity. }
  rewrite E. reflexivity.
Qed.

(** X7, witness: a field declared with the initializer ['hi']. *)
Lemma string_default_rewritten_witness :
  Cxx.is_quote "'" = true /\
  Cxx.plain "hi" = true /\
  Cxx.unescape (sqlInitialization (mkField "motd" (Some T_string) false "'hi'"))
  = "'hi" ++ dq.
Proof.
  split; [reflexivity|]. split; [reflexivity|].
  exact (string_default_rewritten "motd" false "'" "'" "hi" eq_refl eq_refl).
Defined.


(** * Further properties of the statements of an entity *)

Section RemoveFacts.
Import Mapper.

(** X8. When the names are plain text, [removeQuery] returns a chain
    whose value is DELETE FROM the lower-cased class name WHERE the
    conjunction of the primary-key tests; [loadQuery] has the same
    conjunction, after the class name as it is declared. *)
Theorem removeQuery_sql (entry : Entry) (env : string -> string) :
  plain_names entry ->
  exists e predicate,
    removeQuery_text entry = "return " ++ show "+" e ++ ";" /\
    eval env e =
      "DELETE FROM `" ++ JS.toLowerCase (className entry) ++ "` WHERE "
        ++ predicate ++ ";" /\
    predicate =
      JS.join " AND "
        (map (fun x => "`" ++ name x ++ "` = " ++ env ("this->" ++ name x)) (pks entry)) /\
    loadQuery entry env =
      "SELECT * FROM `" ++ className entry ++ "` WHERE " ++ predicate ++ ";".
Proof.
  intros Hp. exists (atoms (removeQuery_chunks entry)). eexists.
  split; [rewrite removeQuery_text_chunks, emitted_show; reflexivity|].
  split; [apply removeQuery_value, Hp|]. split; [reflexivity|].
  apply loadQuery_value, Hp.
Qed.

End RemoveFacts.

(** X8, witness: [Player] with id 7. *)
Lemma removeQuery_sql_witness :
  Mapper.plain_names Sample.Player /\
  exists e predicate,
    Mapper.removeQuery_text Sample.Player = "return " ++ Mapper.show "+" e ++ ";" /\
    Mapper.eval Sample.env_sample e =
      "DELETE FROM `" ++ JS.toLowerCase (className Sample.Player) ++ "` WHERE "
        ++ predicate ++ ";" /\
    predicate =
      JS.join " AND "
        (map (fun x => "`" ++ name x ++ "` = " ++ Sample.env_sample ("this->" ++ name x))
             (Mapper.pks Sample.Player)) /\
    Mapper.loadQuery Sample.Player Sample.env_sample =
      "SELECT * FROM `" ++ className Sample.Player ++ "` WHERE " ++ predicate ++ ";".
Proof.
  assert (H : Mapper.plain_names Sample.Player)
    by (split; [reflexivity|repeat constructor]).
  split; [exact H|].
  exact (removeQuery_sql Sample.Player Sample.env_sample H).
Defined.

Section MapSqlFacts.
Import MapSql.

Lemma wrap_show (str : string) (b : bool) :
  wrap str b = show_operand (wrap_operand str b).
Proof.
  destruct b; [|reflexivity]. unfold wrap, wrap_operand. simpl.
  rewrite !sapp_assoc. reflexivity.
Qed.

Lemma pcat_app (f : piece -> string) (a b : list piece) :
  pcat f (a ++ b) = pcat f a ++ pcat f b.
Proof.
  induction a as [|c a IH]; simpl; [reflexivity|].
  rewrite IH, sapp_assoc. reflexivity.
Qed.

Lemma pcat_join (f : piece -> string) (sep : list piece) (items : list (list piece)) :
  pcat f (pjoin sep items) = JS.join (pcat f sep) (map (pcat f) items).
Proof.
  induction items as [|y r IH]; [reflexivity|].
  destruct r as [|z r]; [reflexivity|].
  change (pjoin sep (y :: z :: r)) with (y ++ sep ++ pjoin sep (z :: r))%list.
  rewrite !pcat_app, IH. reflexivity.
Qed.

Lemma operands_from_cons (cur : string) (ps : list piece) :
  exists a r, operands_from cur ps = a :: r.
Proof.
  revert cur. induction ps as [|[t|o] ps IH]; intros cur; simpl; eauto.
Qed.

(** What was written, between quotes, is the text of the chain. *)
Lemma put_chain (cur : string) (ps : list piece) :
  dq ++ cur ++ pcat put ps ++ dq = show_chain (operands_from cur ps).
Proof.
  revert cur. induction ps as [|[t|o] ps IH]; intros cur.
  - reflexivity.
  - simpl operands_from. rewrite <- IH. simpl pcat. rewrite !sapp_assoc. reflexivity.
  - simpl operands_from. unfold show_chain. simpl map.
    destruct (operands_from_cons "" ps) as (a & r & E).
    pose proof (IH "") as IH0. unfold show_chain in IH0. rewrite E in *.
    simpl map in *. rewrite !join_cons2. rewrite <- IH0.
    simpl. rewrite !sapp_assoc. reflexivity.
Qed.

Lemma eval_chain_cons (env : string -> string) (o : operand) (e : list operand) :
  eval_chain env (o :: e) = eval_operand env o ++ eval_chain env e.
Proof. unfold eval_chain. simpl map. apply concat_nosep. Qed.

Lemma eval_operands_from (env : string -> string) (cur : string) (ps : list piece) :
  Mapper.closed cur -> Forall closed_piece ps ->
  eval_chain env (operands_from cur ps) = Cxx.unescape cur ++ pcat (pvalue env) ps.
Proof.
  revert cur. induction ps as [|[t|o] ps IH]; intros cur Hcur Hps.
  - simpl. unfold eval_chain. simpl. rewrite sapp_nil_r. reflexivity.
  - apply Forall_cons_iff in Hps as [Ht Hr]. simpl operands_from.
    rewrite IH by (try apply closed_app; assumption).
    rewrite Hcur. simpl pcat. rewrite sapp_assoc. reflexivity.
  - apply Forall_cons_iff in Hps as [_ Hr]. simpl operands_from.
    rewrite !eval_chain_cons, IH by (try assumption; intros s; reflexivity).
    reflexivity.
Qed.

Lemma closed_pjoin (sep : list piece) (items : list (list piece)) :
  Forall closed_piece sep -> Forall (Forall closed_piece) items ->
  Forall closed_piece (pjoin sep items).
Proof.
  intros Hsep Hitems. induction Hitems as [|y r Hy Hr IH]; [constructor|].
  destruct r as [|z r]; [exact Hy|].
  change (pjoin sep (y :: z :: r)) with (y ++ sep ++ pjoin sep (z :: r))%list.
  repeat (apply Forall_app; split); assumption.
Qed.

Lemma wrap_value (env : string -> string) (str : string) (b : bool) :
  Cxx.plain str = true ->
  eval_operand env (wrap_operand str b) = wrapped env str b.
Proof.
  intros Hp. destruct b; [|reflexivity].
  change (eval_operand env (wrap_operand str true))
    with (Cxx.unescape (" + std::string(" ++ str ++ ") + ") ++ "").
  rewrite (plain_self (" + std::string(" ++ str ++ ") + ")) by (apply plain_wrap; auto).
  apply sapp_nil_r.
Qed.

Lemma plain_db_name (x : DBDictionary) :
  Cxx.plain (dict_owner x) = true -> Cxx.plain (dict_name x) = true ->
  Cxx.plain (db_name x) = true.
Proof.
  intros Ho Hn. unfold db_name. apply plain_wrap; auto using plain_lower.
Qed.


Section Statements.
Variable entry : Entry.
Variable x : DBDictionary.

Lemma keys_written (l : list Field) :
  map (pcat put) (map (fun f => [Opd (wrap_operand (name f) (is_string (type f)))]) l)
  = map (fun f => dq ++ " + " ++ wrap (name f) (is_string (type f)) ++ " + " ++ dq) l.
Proof.
  rewrite map_map. apply map_ext. intros f. cbn [pcat put].
  rewrite wrap_show, !sapp_assoc, sapp_nil_r. reflexivity.
Qed.

Lemma key_tests_written (pre : string) (l : list Field) :
  map (pcat put) (map (key_test pre) l)
  = map (fun f => "`" ++ name f ++ "` = " ++ dq ++ " + "
                    ++ wrap (pre ++ name f) (is_string (type f)) ++ " + " ++ dq) l.
Proof.
  rewrite map_map. apply map_ext. intros f. cbn [key_test pcat put].
  rewrite wrap_show, !sapp_assoc, sapp_nil_r. reflexivity.
Qed.

Lemma upsert_text_chain :
  upsert_text entry x =
    Q entry ++ "(JSTR(" ++ show_chain (operands_from "" (upsert_pieces entry x)) ++ "));".
Proof.
  rewrite <- put_chain. unfold upsert_text, upsert_pieces.
  cbn [pcat put]. rewrite pcat_app, pcat_join, keys_written.
  cbn [pcat put]. rewrite !wrap_show, !sapp_assoc. reflexivity.
Qed.

Lemma erase_text_chain :
  erase_text entry x =
    Q entry ++ "(JSTR(" ++ show_chain (operands_from "" (erase_pieces entry x)) ++ "));".
Proof.
  rewrite <- put_chain. unfold erase_text, erase_pieces.
  cbn [pcat put]. rewrite pcat_app, pcat_join, (key_tests_written "").
  cbn [pcat put]. rewrite !wrap_show, !sapp_assoc. reflexivity.
Qed.

Lemma read_text_chain :
  read_text entry x =
    "auto " ++ dict_name x ++ "_res = " ++ Q entry ++ "("
      ++ show_chain (operands_from "" (read_pieces entry x)) ++ ");".
Proof.
  rewrite <- put_chain. unfold read_text, read_pieces.
  cbn [pcat put]. rewrite pcat_app, pcat_join, (key_tests_written "obj->").
  cbn [pcat put]. rewrite !sapp_assoc. reflexivity.
Qed.


Lemma keys_value (env : string -> string) (l : list Field) :
  Forall (fun f => Cxx.plain (name f) = true) l ->
  map (pcat (pvalue env))
      (map (fun f => [Opd (wrap_operand (name f) (is_string (type f)))]) l)
  = map (fun f => wrapped env (name f) (is_string (type f))) l.
Proof.
  intros H. rewrite map_map. apply map_ext_in. intros f Hf.
  rewrite Forall_forall in H. cbn [pcat pvalue].
  rewrite wrap_value by (apply H, Hf). apply sapp_nil_r.
Qed.

Lemma key_tests_value (env : string -> string) (pre : string) (l : list Field) :
  Cxx.plain pre = true ->
  Forall (fun f => Cxx.plain (name f) = true) l ->
  map (pcat (pvalue env)) (map (key_test pre) l)
  = map (fun f => "`" ++ name f ++ "` = "
                    ++ wrapped env (pre ++ name f) (is_string (type f))) l.
Proof.
  intros Hpre H. rewrite map_map. apply map_ext_in. intros f Hf.
  rewrite Forall_forall in H. specialize (H f Hf). cbn [key_test pcat pvalue].
  rewrite wrap_value by (rewrite plain_app, Hpre, H; reflexivity).
  rewrite (plain_self ("`" ++ name f ++ "` = ")) by (apply plain_wrap; auto).
  rewrite sapp_nil_r, !sapp_assoc. reflexivity.
Qed.

Lemma key_tests_closed (pre : string) (l : list Field) :
  Forall (fun f => Cxx.plain (name f) = true) l ->
  Forall (Forall closed_piece) (map (key_test pre) l).
Proof.
  intros H. apply Forall_map. eapply Forall_impl; [|exact H].
  intros f Hf. constructor; [|repeat constructor].
  apply plain_closed, plain_wrap; auto.
Qed.

Lemma upsert_value (env : string -> string) :
  plain_dictionary entry x ->
  upsert entry x env =
    "INSERT INTO `" ++ db_name x ++ "` VALUES ("
      ++ JS.join "," (map (fun f => wrapped env (name f) (is_string (type f)))
                          (owner_keys entry))
      ++ ", " ++ wrapped env "itr->first" (is_string (keyType x))
      ++ " , " ++ wrapped env "itr->second._value" (is_string (valueType x))
      ++ ") ON DUPLICATE KEY UPDATE  `map_value` = "
      ++ wrapped env "itr->second._value" (is_string (valueType x))
      ++ ";".
Proof.
  intros (Ho & Hn & Hk). pose proof (plain_db_name x Ho Hn) as Hd.
  unfold upsert, upsert_pieces. rewrite eval_operands_from.
  - cbn [pcat pvalue]. rewrite pcat_app, pcat_join, keys_value by exact Hk.
    cbn [pcat pvalue]. rewrite !wrap_value by reflexivity.
    rewrite (plain_self ("INSERT INTO `" ++ db_name x ++ "` VALUES ("))
      by (apply plain_wrap; auto).
    rewrite !sapp_assoc. reflexivity.
  - intros s. reflexivity.
  - constructor; [apply plain_closed, plain_wrap; auto|].
    apply Forall_app. split.
    + apply closed_pjoin; [repeat constructor; apply plain_closed; reflexivity|].
      apply Forall_map, Forall_forall. intros f _. repeat constructor.
    + repeat (constructor; [try exact I; try (apply plain_closed; reflexivity)|]).
      constructor.
Qed.

Lemma erase_value (env : string -> string) :
  plain_dictionary entry x ->
  erase entry x env =
    "DELETE FROM `" ++ db_name x ++ "` WHERE "
      ++ JS.join " AND "
           (map (fun f => "`" ++ name f ++ "` = "
                            ++ wrapped env (name f) (is_string (type f)))
                (owner_keys entry))
      ++ " AND `map_key` = " ++ wrapped env "*itr" (is_string (keyType x))
      ++ ";".
Proof.
  intros (Ho & Hn & Hk). pose proof (plain_db_name x Ho Hn) as Hd.
  unfold erase, erase_pieces. rewrite eval_operands_from.
  - cbn [pcat pvalue].
    rewrite pcat_app, pcat_join, (key_tests_value env "") by (auto; reflexivity).
    cbn [pcat pvalue]. rewrite !wrap_value by reflexivity.
    rewrite (plain_self ("DELETE FROM `" ++ db_name x ++ "` WHERE "))
      by (apply plain_wrap; auto).
    rewrite !sapp_assoc. reflexivity.
  - intros s. reflexivity.
  - constructor; [apply plain_closed, plain_wrap; auto|].
    apply Forall_app. split.
    + apply closed_pjoin; [repeat constructor; apply plain_closed; reflexivity|].
      apply key_tests_closed, Hk.
    + repeat (constructor; [try exact I; try (apply plain_closed; reflexivity)|]).
      constructor.
Qed.

Lemma read_value (env : string -> string) :
  plain_dictionary entry x ->
  read entry x env =
    "SELECT * from `" ++ db_name x ++ "` WHERE "
      ++ JS.join " AND "
           (map (fun f => "`" ++ name f ++ "` = "
                            ++ wrapped env ("obj->" ++ name f) (is_string (type f)))
                (owner_keys entry))
      ++ ";".
Proof.
  intros (Ho & Hn & Hk). pose proof (plain_db_name x Ho Hn) as Hd.
  unfold read, read_pieces. rewrite eval_operands_from.
  - cbn [pcat pvalue].
    rewrite pcat_app, pcat_join, (key_tests_value env "obj->") by (auto; reflexivity).
    cbn [pcat pvalue].
    rewrite (plain_self ("SELECT * from `" ++ db_name x ++ "` WHERE "))
      by (apply plain_wrap; auto).
    rewrite !sapp_assoc. reflexivity.
  - intros s. reflexivity.
  - constructor; [apply plain_closed, plain_wrap; auto|].
    apply Forall_app. split.
    + apply closed_pjoin; [repeat constructor; apply plain_closed; reflexivity|].
      apply key_tests_closed, Hk.
    + repeat constructor; apply plain_closed; reflexivity.
Qed.

(** X9. The statements of the two loops of [save()] for a dictionary,
    when the names are plain text and [+] joins the operands: the INSERT
    .. ON DUPLICATE KEY UPDATE on the table of the dictionary lists the
    owner's primary keys, then the key and the value at the iterator,
    and updates [map_value]; the DELETE tests the owner's primary keys
    and [map_key]. Each operand is what [wrap] contributes. *)
Theorem submap_flush_sql (env : string -> string) :
  plain_dictionary entry x ->
  (exists e,
     upsert_text entry x = Q entry ++ "(JSTR(" ++ show_chain e ++ "));" /\
     eval_chain env e =
       "INSERT INTO `" ++ db_name x ++ "` VALUES ("
         ++ JS.join "," (map (fun f => wrapped env (name f) (is_string (type f)))
                             (owner_keys entry))
         ++ ", " ++ wrapped env "itr->first" (is_string (keyType x))
         ++ " , " ++ wrapped env "itr->second._value" (is_string (valueType x))
         ++ ") ON DUPLICATE KEY UPDATE  `map_value` = "
         ++ wrapped env "itr->second._value" (is_string (valueType x))
         ++ ";") /\
  (exists e,
     erase_text entry x = Q entry ++ "(JSTR(" ++ show_chain e ++ "));" /\
     eval_chain env e =
       "DELETE FROM `" ++ db_name x ++ "` WHERE "
         ++ JS.join " AND "
              (map (fun f => "`" ++ name f ++ "` = "
                               ++ wrapped env (name f) (is_string (type f)))
                   (owner_keys entry))
         ++ " AND `map_key` = " ++ wrapped env "*itr" (is_string (keyType x))
         ++ ";").
Proof.
  intros Hp. split.
  - exists (operands_from "" (upsert_pieces entry x)).
    split; [apply upsert_text_chain|apply upsert_value, Hp].
  - exists (operands_from "" (erase_pieces entry x)).
    split; [apply erase_text_chain|apply erase_value, Hp].
Qed.

(** X10. The query of [Load] for a dictionary, when the names are plain
    text and [+] joins the operands: SELECT * from the table of the
    dictionary WHERE the owner's primary keys equal what [wrap]
    contributes for the members of [obj]. *)
Theorem submap_read_sql (env : string -> string) :
  plain_dictionary entry x ->
  exists e,
    read_text entry x =
      "auto " ++ dict_name x ++ "_res = " ++ Q entry ++ "(" ++ show_chain e ++ ");" /\
    eval_chain env e =
      "SELECT * from `" ++ db_name x ++ "` WHERE "
        ++ JS.join " AND "
             (map (fun f => "`" ++ name f ++ "` = "
                              ++ wrapped env ("obj->" ++ name f) (is_string (type f)))
                  (owner_keys entry))
        ++ ";".
Proof.
  intros Hp. exists (operands_from "" (read_pieces entry x)).
  split; [apply read_text_chain|apply read_value, Hp].
Qed.

(** X11. For a dictionary with string keys the value of the key never
    reaches the statements: what [wrap] writes for a string is read by
    C++ as one literal that holds the text of the expression, so the
    DELETE is the same in any two states that agree on the owner's
    primary keys, and so is the INSERT when they also agree on the
    value at the iterator. *)
Theorem string_key_not_spliced (env env' : string -> string) :
  plain_dictionary entry x ->
  is_string (keyType x) = true ->
  (forall f, In f (owner_keys entry) ->
     env ("std::to_string(" ++ name f ++ ")") = env' ("std::to_string(" ++ name f ++ ")")) ->
  erase entry x env = erase entry x env' /\
  (env "std::to_string(itr->second._value)" = env' "std::to_string(itr->second._value)" ->
   upsert entry x env = upsert entry x env').
Proof.
  intros Hp Hk Hagree.
  assert (Hw : forall f, In f (owner_keys entry) ->
             wrapped env (name f) (is_string (type f))
             = wrapped env' (name f) (is_string (type f))).
  { intros f Hf. unfold wrapped. destruct (is_string (type f)); [reflexivity|].
    apply Hagree, Hf. }
  split.
  - rewrite !erase_value by exact Hp. rewrite Hk. cbn [wrapped].
    rewrite (map_ext_in
               (fun f => "`" ++ name f ++ "` = " ++ wrapped env (name f) (is_string (type f)))
               (fun f => "`" ++ name f ++ "` = " ++ wrapped env' (name f) (is_string (type f))))
      by (intros f Hf; rewrite (Hw f Hf); reflexivity).
    reflexivity.
  - intros Hv. rewrite !upsert_value by exact Hp. rewrite Hk.
    assert (E : wrapped env "itr->second._value" (is_string (valueType x))
                = wrapped env' "itr->second._value" (is_string (valueType x))).
    { unfold wrapped. destruct (is_string (valueType x)); [reflexivity|exact Hv]. }
    rewrite E. cbn [wrapped].
    rewrite (map_ext_in
               (fun f => wrapped env (name f) (is_string (type f)))
               (fun f => wrapped env' (name f) (is_string (type f))) _ Hw).
    reflexivity.
Qed.

End Statements.
End MapSqlFacts.

(** X9, witness: the dictionary [tags] of [Guild]. *)
Lemma submap_flush_sql_witness :
  MapSql.plain_dictionary Sample.Guild Cases.tags /\
  (exists e,
     MapSql.upsert_text Sample.Guild Cases.tags
       = MapSql.Q Sample.Guild ++ "(JSTR(" ++ MapSql.show_chain e ++ "));" /\
     MapSql.eval_chain (Cases.env_of "a") e =
       "INSERT INTO `" ++ db_name Cases.tags ++ "` VALUES ("
         ++ JS.join ","
              (map (fun f => MapSql.wrapped (Cases.env_of "a") (name f) (is_string (type f)))
                   (MapSql.owner_keys Sample.Guild))
         ++ ", " ++ MapSql.wrapped (Cases.env_of "a") "itr->first"
                      (is_string (keyType Cases.tags))
         ++ " , " ++ MapSql.wrapped (Cases.env_of "a") "itr->second._value"
                       (is_string (valueType Cases.tags))
         ++ ") ON DUPLICATE KEY UPDATE  `map_value` = "
         ++ MapSql.wrapped (Cases.env_of "a") "itr->second._value"
              (is_string (valueType Cases.tags))
         ++ ";") /\
  (exists e,
     MapSql.erase_text Sample.Guild Cases.tags
       = MapSql.Q Sample.Guild ++ "(JSTR(" ++ MapSql.show_chain e ++ "));" /\
     MapSql.eval_chain (Cases.env_of "a") e =
       "DELETE FROM `" ++ db_name Cases.tags ++ "` WHERE "
         ++ JS.join " AND "
              (map (fun f => "`" ++ name f ++ "` = "
                               ++ MapSql.wrapped (Cases.env_of "a") (name f)
                                    (is_string (type f)))
                   (MapSql.owner_keys Sample.Guild))
         ++ " AND `map_key` = "
         ++ MapSql.wrapped (Cases.env_of "a") "*itr" (is_string (keyType Cases.tags))
         ++ ";").
Proof.
  assert (H : MapSql.plain_dictionary Sample.Guild Cases.tags)
    by (split; [reflexivity|split; [reflexivity|repeat constructor]]).
  split; [exact H|].
  exact (submap_flush_sql Sample.Guild Cases.tags (Cases.env_of "a") H).
Defined.

(** X10, witness: the dictionary [tags] of [Guild]. *)
Lemma submap_read_sql_witness :
  MapSql.plain_dictionary Sample.Guild Cases.tags /\
  exists e,
    MapSql.read_text Sample.Guild Cases.tags =
      "auto " ++ dict_name Cases.tags ++ "_res = " ++ MapSql.Q Sample.Guild
        ++ "(" ++ MapSql.show_chain e ++ ");" /\
    MapSql.eval_chain (Cases.env_of "a") e =
      "SELECT * from `" ++ db_name Cases.tags ++ "` WHERE "
        ++ JS.join " AND "
             (map (fun f => "`" ++ name f ++ "` = "
                              ++ MapSql.wrapped (Cases.env_of "a") ("obj->" ++ name f)
                                   (is_string (type f)))
                  (MapSql.owner_keys Sample.Guild))
        ++ ";".
Proof.
  assert (H : MapSql.plain_dictionary Sample.Guild Cases.tags)
    by (split; [reflexivity|split; [reflexivity|repeat constructor]]).
  split; [exact H|].
  exact (submap_read_sql Sample.Guild Cases.tags (Cases.env_of "a") H).
Defined.

(** X11, witness: two states of a [Guild] that differ in the key at the
    iterator give the same DELETE and the same INSERT for [tags]. *)
Lemma string_key_not_spliced_witness :
  Cases.env_of "a" "*itr" <> Cases.env_of "b" "*itr" /\
  MapSql.erase Sample.Guild Cases.tags (Cases.env_of "a")
    = MapSql.erase Sample.Guild Cases.tags (Cases.env_of "b") /\
  MapSql.upsert Sample.Guild Cases.tags (Cases.env_of "a")
    = MapSql.upsert Sample.Guild Cases.tags (Cases.env_of "b").
Proof.
  split; [discriminate|].
  destruct (string_key_not_spliced Sample.Guild Cases.tags
              (Cases.env_of "a") (Cases.env_of "b")) as [He Hu].
  - split; [reflexivity|split; [reflexivity|repeat constructor]].
  - reflexivity.
  - intros f [<-|[]]. reflexivity.
  - split; [exact He|]. apply Hu. reflexivity.
Defined.


(** * Further properties of the entity model *)

Section MemberFacts.
Import Builder Members.

Lemma handleMember_skip (owner : string) (m : Member)
  (acc : list Field * list DBDictionary) :
  is_decorated m = false -> handleMember owner m acc = Ok acc.
Proof.
  unfold is_decorated, handleMember. intros H.
  destruct (is_property m); simpl in *; [|reflexivity]. rewrite H. reflexivity.
Qed.

(** X12. [handleClass] gives the same result, entry or error, on a class
    and on the class without the members that are not properties or
    carry neither [@Field] nor [@PrimaryKey]. *)
Theorem undecorated_members_ignored (node : ClassDeclaration) :
  handleClass node =
    handleClass (mkClass (class_decorators node) (class_name node)
                         (filter is_decorated (members node))).
Proof.
  unfold handleClass. cbn [class_decorators class_name members].
  destruct (fold_left table_decorator (class_decorators node) None); [|reflexivity].
  f_equal. generalize (@nil Field, @nil DBDictionary).
  induction (members node) as [|m r IH]; intros acc; [reflexivity|].
  cbn [filter]. destruct (is_decorated m) eqn:E.
  - simpl. destruct (handleMember (class_name node) m acc); simpl; [apply IH|reflexivity].
  - simpl. rewrite handleMember_skip by exact E. simpl. apply IH.
Qed.

(** What a member that is accepted pushes. *)
Lemma handleMember_pushes (owner : string) (m : Member)
  (acc acc' : list Field * list DBDictionary) :
  is_decorated m = true ->
  handleMember owner m acc = Ok acc' ->
  if is_dict_member m
  then acc' = (fst acc, (snd acc ++ [as_dict owner m])%list) /\
       (exists t, keyType (as_dict owner m) = Some t)
  else acc' = ((fst acc ++ [as_field m])%list, snd acc) /\
       (exists t, type (as_field m) = Some t) /\
       member_initializer m = Some (initialization (as_field m)) /\
       (isPrimaryKey (as_field m) = true -> is_string (type (as_field m)) = false).
Proof.
  unfold is_decorated, handleMember, is_dict_member, as_dict, as_field, typeargs_of.
  intros Hd. apply andb_prop in Hd as [-> ->]. cbn [negb].
  destruct (member_type m) as [ty|]; [|discriminate].
  destruct (String.prefix "TSDBDict" ty).
  - destruct (nth_error (split "<" ty) 1) as [inner|] eqn:En; [|discriminate].
    rewrite (nth_error_nth _ _ EmptyString En).
    destruct (check_typeargs _) as [[]|e] eqn:E; [|discriminate].
    simpl. intros [= <-]. split; [reflexivity|].
    cbn [keyType]. unfold typearg.
    destruct (split_cons "," (hd EmptyString (split ">" inner))) as (h & t & Hs).
    rewrite Hs in *. simpl. apply check_typeargs_head in E. exact E.
  - destruct (parse_type ty) as [t|]; [|discriminate].
    destruct (is_string (Some t) && isPrimaryKeyMember m) eqn:E; [discriminate|].
    destruct (member_initializer m) as [d|]; [|discriminate].
    intros [= <-]. cbn [type initialization isPrimaryKey].
    repeat split; eauto. intros Hpk. rewrite Hpk, andb_true_r in E. exact E.
Qed.

(** What the members that are accepted push, all together. *)
Lemma handleMembers_pushes (owner : string) (ms : list Member)
  (acc0 acc1 : list Field * list DBDictionary) :
  handleMembers owner ms acc0 = Ok acc1 ->
  fst acc1 = (fst acc0 ++ map as_field
                (filter (fun m => is_decorated m && negb (is_dict_member m)) ms))%list /\
  snd acc1 = (snd acc0 ++ map (as_dict owner)
                (filter (fun m => is_decorated m && is_dict_member m) ms))%list /\
  Forall (fun f => exists t, type f = Some t)
         (map as_field
            (filter (fun m => is_decorated m && negb (is_dict_member m)) ms)) /\
  Forall (fun m => is_decorated m = true -> is_dict_member m = false ->
                   member_initializer m <> None) ms.
Proof.
  revert acc0 acc1. induction ms as [|m r IH]; intros acc0 acc1.
  - intros [= <-]. rewrite !app_nil_r. repeat split; constructor.
  - simpl. destruct (handleMember owner m acc0) as [acc2|e] eqn:Em; [|discriminate].
    simpl. intros H. destruct (IH _ _ H) as (H1 & H2 & H3 & H4).
    destruct (is_decorated m) eqn:Ed.
    + pose proof (handleMember_pushes _ _ _ _ Ed Em) as Hp.
      destruct (is_dict_member m) eqn:Edict; cbn [andb negb map].
      * destruct Hp as [-> _]. cbn [fst snd] in *.
        rewrite H1, H2, <- app_assoc. repeat split; auto.
        constructor; [intros _ Hx; congruence|exact H4].
      * destruct Hp as (-> & Ht & Hi & _). cbn [fst snd] in *.
        rewrite H1, H2, <- app_assoc. repeat split; auto.
        constructor; [intros _ _; rewrite Hi; discriminate|exact H4].
    + rewrite handleMember_skip in Em by exact Ed. injection Em as <-.
      cbn [andb]. repeat split; auto.
      constructor; [intros Hx; congruence|exact H4].
Qed.

(** X13. When [handleClass] registers an entry, the entry has the name
    of the class; its fields are the decorated members whose type does
    not start with TSDBDict, in declaration order, each with its
    declared name, its type among the keys of [MethodTypes], its
    [@PrimaryKey] mark and the text of its initializer; its dictionaries
    are the other decorated members, in declaration order, with the
    first two type arguments; and every member that became a field has
    an initializer. *)
Theorem registered_members_in_order (node : ClassDeclaration) (entry : Entry) :
  handleClass node = Ok (Some entry) ->
  className entry = class_name node /\
  fields entry =
    map as_field
        (filter (fun m => is_decorated m && negb (is_dict_member m)) (members node)) /\
  dictionaries entry =
    map (as_dict (class_name node))
        (filter (fun m => is_decorated m && is_dict_member m) (members node)) /\
  Forall (fun f => exists t, type f = Some t) (fields entry) /\
  Forall (fun m => is_decorated m = true -> is_dict_member m = false ->
                   member_initializer m <> None) (members node).
Proof.
  unfold handleClass.
  destruct (fold_left table_decorator (class_decorators node) None) as [d|];
    [|discriminate].
  destruct (handleMembers (class_name node) (members node) ([], [])) as [acc|e] eqn:E;
    [|discriminate].
  simpl. destruct (primaryKeys (fst acc)) eqn:Ek; [discriminate|].
  intros [= <-]. cbn [className fields dictionaries]. split; [reflexivity|].
  destruct (handleMembers_pushes _ _ _ _ E) as (H1 & H2 & H3 & H4).
  cbn [fst snd app] in *. rewrite H1, H2. auto.
Qed.

(** X15. On a table class whose members are all accepted, [handleClass]
    throws for the missing primary key exactly when no decorated member
    outside the dictionaries carries [@PrimaryKey]; a [@PrimaryKey] on a
    dictionary does not count. *)
Theorem no_primary_key_error (node : ClassDeclaration) (db : DBType)
  (acc : list Field * list DBDictionary) :
  fold_left table_decorator (class_decorators node) None = Some db ->
  handleMembers (class_name node) (members node) ([], []) = Ok acc ->
  (handleClass node = Throw NoPrimaryKey <->
   forall m, In m (members node) -> is_decorated m = true ->
             is_dict_member m = false -> isPrimaryKeyMember m = false).
Proof.
  intros Hdb Hms. unfold handleClass. rewrite Hdb, Hms. cbn [bind].
  destruct (handleMembers_pushes _ _ _ _ Hms) as (H1 & _). cbn [fst app] in H1.
  rewrite H1. unfold primaryKeys.
  set (scalars := filter (fun m => is_decorated m && negb (is_dict_member m))
                         (members node)).
  assert (Hiff : filter isPrimaryKey (map as_field scalars) = [] <->
                 forall m, In m scalars -> isPrimaryKeyMember m = false).
  { clear. induction scalars as [|m r IH]; [split; [intros _ m []|reflexivity]|].
    cbn [map filter]. change (isPrimaryKey (as_field m)) with (isPrimaryKeyMember m).
    destruct (isPrimaryKeyMember m) eqn:E.
    - split; [discriminate|]. intros H. specialize (H m (or_introl eq_refl)). congruence.
    - rewrite IH. split.
      + intros H m' [<-|Hm']; auto.
      + intros H m' Hm'. apply H. right. exact Hm'. }
  split.
  - intros H m Hm Hd Hn.
    assert (X : filter isPrimaryKey (map as_field scalars) = []).
    { destruct (filter isPrimaryKey (map as_field scalars));
        [reflexivity|discriminate H]. }
    apply (proj1 Hiff X). unfold scalars. apply filter_In. rewrite Hd, Hn. auto.
  - intros H.
    assert (X : filter isPrimaryKey (map as_field scalars) = []).
    { apply Hiff. intros m Hm. unfold scalars in Hm. apply filter_In in Hm as [Hm Hb].
      apply andb_prop in Hb as [Hd Hn]. apply negb_true_iff in Hn. auto. }
    rewrite X. reflexivity.
Qed.

Lemma fold_decorators_none (ds : list string) (acc : option DBType) :
  (forall d, In d ds -> table_db d = None) ->
  fold_left table_decorator ds acc = acc.
Proof.
  revert acc. induction ds as [|d r IH]; intros acc H; [reflexivity|].
  simpl. rewrite IH by (intros d' Hd'; apply H; right; exact Hd').
  specialize (H d (or_introl eq_refl)). unfold table_db, table_decorator in *.
  destruct (String.eqb d "@WorldTable"); [discriminate|].
  destruct (String.eqb d "@AuthTable"); [discriminate|].
  destruct (String.eqb d "@CharactersTable"); [discriminate|reflexivity].
Qed.

(** X14. Of several table decorators on a class the last one decides
    the database of the entry: the result of [handleClass] is the one of
    the members under the database of the last decorator among
    [@WorldTable], [@AuthTable] and [@CharactersTable]. *)
Theorem last_table_decorator_decides (node : ClassDeclaration)
  (pre post : list string) (d : string) (db : DBType) :
  class_decorators node = (pre ++ d :: post)%list ->
  table_db d = Some db ->
  (forall d', In d' post -> table_db d' = None) ->
  handleClass node =
    bind (handleMembers (class_name node) (members node) ([], []))
         (fun acc =>
            match primaryKeys (fst acc) with
            | [] => Throw NoPrimaryKey
            | _ :: _ => Ok (Some (mkEntry (class_name node) db (fst acc) (snd acc)))
            end).
Proof.
  intros Hd Hdb Hpost. unfold handleClass. rewrite Hd, fold_left_app. cbn [fold_left].
  rewrite fold_decorators_none by exact Hpost.
  assert (E : forall acc, table_decorator acc d = Some db).
  { intros acc. unfold table_db, table_decorator in *.
    destruct (String.eqb d "@WorldTable"); [exact Hdb|].
    destruct (String.eqb d "@AuthTable"); [exact Hdb|].
    destruct (String.eqb d "@CharactersTable"); [exact Hdb|discriminate]. }
  rewrite E. reflexivity.
Qed.

End MemberFacts.

(** X13, witness: the class [Guild]. *)
Lemma registered_members_in_order_witness :
  className Sample.Guild = Builder.class_name Sample.Guild_class /\
  fields Sample.Guild =
    map Members.as_field
        (filter (fun m => Members.is_decorated m && negb (Members.is_dict_member m))
                (Builder.members Sample.Guild_class)) /\
  dictionaries Sample.Guild =
    map (Members.as_dict (Builder.class_name Sample.Guild_class))
        (filter (fun m => Members.is_decorated m && Members.is_dict_member m)
                (Builder.members Sample.Guild_class)) /\
  Forall (fun f => exists t, type f = Some t) (fields Sample.Guild) /\
  Forall (fun m => Members.is_decorated m = true -> Members.is_dict_member m = false ->
                   Builder.member_initializer m <> None)
         (Builder.members Sample.Guild_class).
Proof.
  apply (registered_members_in_order Sample.Guild_class Sample.Guild). reflexivity.
Defined.

(** X14, witness: [Account], marked for the world and then for the auth
    database, is registered for the auth database. *)
Lemma last_table_decorator_decides_witness :
  Builder.handleClass Cases.Account_class =
    Builder.bind
      (Builder.handleMembers (Builder.class_name Cases.Account_class)
         (Builder.members Cases.Account_class) ([], []))
      (fun acc =>
         match primaryKeys (fst acc) with
         | [] => Builder.Throw Builder.NoPrimaryKey
         | _ :: _ =>
             Builder.Ok (Some (mkEntry (Builder.class_name Cases.Account_class) auth
                                       (fst acc) (snd acc)))
         end).
Proof.
  apply (last_table_decorator_decides Cases.Account_class
           ["@WorldTable"] ["@Entity"] "@AuthTable" auth).
  - reflexivity.
  - reflexivity.
  - intros d' [<-|[]]. reflexivity.
Defined.

(** X15, witness: [Log], whose only [@PrimaryKey] is on a dictionary. *)
Lemma no_primary_key_error_witness :
  Builder.handleClass Cases.Log_class = Builder.Throw Builder.NoPrimaryKey <->
  (forall m, In m (Builder.members Cases.Log_class) ->
     Members.is_decorated m = true -> Members.is_dict_member m = false ->
     Builder.isPrimaryKeyMember m = false).
Proof.
  apply (no_primary_key_error Cases.Log_class world
           ([], [mkDict "Log" "lines" (Some T_uint32) (Some T_string)]));
    reflexivity.
Defined.

Section LoaderFacts.
Import Builder Members Loader.

(** X18. [vo] and [resolveType] name the same getter for every key of
    [MethodTypes]; on a missing type [vo] throws where [resolveType]
    falls through; and two types share a getter exactly when they share
    the read type of their column. *)
Theorem getters_agree :
  (forall t : FieldType, vo (Some t) = Some (resolveType (Some t))) /\
  vo None = None /\
  (forall a b : FieldType,
     resolveType (Some a) = resolveType (Some b) <->
     Creator.getReadSQLType (Some a) = Creator.getReadSQLType (Some b)).
Proof.
  split; [intros t; destruct t; reflexivity|]. split; [reflexivity|].
  intros [] []; split; intros H; try reflexivity; discriminate H.
Qed.

(** X17. When the [set_silent] line of [Load] is written for a
    dictionary, the key is read at the index at which the table of the
    dictionary, as [writeTableCreationFile] declares it, has [map_key],
    the value at the index of [map_value], the last column; and each is
    read through the getter that [resolveType] gives for the type of
    that column. *)
Theorem set_silent_reads_created_columns (entry : Entry) (x : DBDictionary)
  (k v : Read) :
  set_silent_reads entry x = Some (k, v) ->
  nth_error (dictFields entry x) (column k)
    = Some (mkField "map_key" (keyType x) true "") /\
  getter k = resolveType (keyType x) /\
  (exists f, nth_error (dictFields entry x) (column v) = Some f /\
             name f = "map_value" /\ type f = valueType x /\
             isPrimaryKey f = false /\
             getter v = resolveType (type f)) /\
  length (dictFields entry x) = column v + 1.
Proof.
  unfold set_silent_reads, dictFields.
  destruct (vo (keyType x)) as [gk|] eqn:Ek; [|discriminate].
  destruct (vo (valueType x)) as [gv|] eqn:Ev; [|discriminate].
  intros [= <- <-]. cbn [column getter].
  set (pks := primaryKeys (fields entry)).
  assert (Hk : gk = resolveType (keyType x)).
  { destruct (keyType x) as [[]|]; simpl in Ek |- *; congruence. }
  assert (Hv : gv = resolveType (valueType x)).
  { destruct (valueType x) as [[]|]; simpl in Ev |- *; congruence. }
  split; [|split; [exact Hk|split]].
  - rewrite nth_error_app2 by lia. rewrite Nat.sub_diag. reflexivity.
  - eexists. split.
    + rewrite nth_error_app2 by lia.
      replace (length pks + 1 - length pks) with 1 by lia. reflexivity.
    + cbn [name type isPrimaryKey]. auto.
  - rewrite length_app. simpl. lia.
Qed.

(** X16. A decorated member of type TSDBDict with a single type
    argument, a key of [MethodTypes], passes the checks of the members
    and is pushed as a dictionary without a value type; for such a
    dictionary the [set_silent] line of [Load] cannot be written,
    because [vo] throws on the value type. *)
Theorem single_type_argument (owner : string) (m : Member) (k : string) (t : FieldType)
  (acc : list Field * list DBDictionary) :
  is_decorated m = true ->
  member_type m = Some ("TSDBDict<" ++ k ++ ">") ->
  parse_type k = Some t ->
  handleMember owner m acc =
    Ok (fst acc, (snd acc ++ [mkDict owner (member_name m) (Some t) None])%list) /\
  (forall entry, set_silent_reads entry (mkDict owner (member_name m) (Some t) None) = None).
Proof.
  intros Hd Hty Hk. apply andb_prop in Hd as [Hp Hf].
  unfold parse_type in Hk. apply find_some in Hk as [_ Hk].
  apply String.eqb_eq in Hk. subst k.
  split.
  - unfold handleMember. rewrite Hp, Hf, Hty. cbn [negb].
    destruct t; reflexivity.
  - intros entry. unfold set_silent_reads. cbn [keyType valueType].
    destruct t; reflexivity.
Qed.

End LoaderFacts.

(** X17, witness: the dictionary [tags] of [Guild], whose table has the
    columns [id], [map_key] and [map_value]. *)
Lemma set_silent_reads_created_columns_witness :
  nth_error (Builder.dictFields Sample.Guild Cases.tags) 1
    = Some (mkField "map_key" (keyType Cases.tags) true "") /\
  "GetString" = Loader.resolveType (keyType Cases.tags) /\
  (exists f, nth_error (Builder.dictFields Sample.Guild Cases.tags) 2 = Some f /\
             name f = "map_value" /\ type f = valueType Cases.tags /\
             isPrimaryKey f = false /\
             "GetUInt32" = Loader.resolveType (type f)) /\
  length (Builder.dictFields Sample.Guild Cases.tags) = 2 + 1.
Proof.
  apply (set_silent_reads_created_columns Sample.Guild Cases.tags
           (Loader.mkRead "GetString" 1) (Loader.mkRead "GetUInt32" 2)).
  reflexivity.
Defined.

(** X16, witness: the member [tags: TSDBDict<uint32>]. *)
Lemma single_type_argument_witness :
  Builder.handleMember "Guild" Cases.tags_member ([], [])
    = Builder.Ok ([], [mkDict "Guild" "tags" (Some T_uint32) None]) /\
  (forall entry,
     Loader.set_silent_reads entry (mkDict "Guild" "tags" (Some T_uint32) None) = None).
Proof.
  apply (single_type_argument "Guild" Cases.tags_member "uint32" T_uint32 ([], []));
    reflexivity.
Defined.


(** * Further properties of [save()] *)

Section RetryFacts.
Import Flush.

Variable accepts : Stmt -> bool.

Lemma save_run (entry : Entry) (st : Store) :
  save accepts entry st =
    if accepts SaveRow
    then (SaveRow :: fst (fst (for_each (dictionaries entry) (flush accepts) st)),
          snd (fst (for_each (dictionaries entry) (flush accepts) st)),
          snd (for_each (dictionaries entry) (flush accepts) st))
    else ([SaveRow], st, None).
Proof.
  unfold save, bind, send. destruct (accepts SaveRow); [|reflexivity].
  destruct (for_each (dictionaries entry) (flush accepts) st) as [[? ?] ?].
  reflexivity.
Qed.

Lemma clear_clean (d : Dict) : clean d -> clear d = d.
Proof.
  destruct d as [es er]. unfold clean, dirtyKeys, clear. cbn [entries erases].
  intros [Hd ->]. f_equal.
  induction es as [|[k [v b]] r IH]; [reflexivity|].
  cbn [filter snd] in Hd. destruct b; [discriminate Hd|].
  cbn [map fst snd]. rewrite IH by exact Hd. reflexivity.
Qed.

Lemma statements_clean (x : DBDictionary) (st : Store) :
  clean (st (dict_name x)) -> statements x st = [].
Proof.
  intros Hc. apply (statements_clear x st). symmetry. apply clear_clean, Hc.
Qed.

(** The flush of dictionaries that are all clean. *)
Lemma flush_clean (ds : list DBDictionary) (st : Store) :
  (forall x, In x ds -> clean (st (dict_name x))) ->
  fst (fst (for_each ds (flush accepts) st)) = [] /\
  snd (for_each ds (flush accepts) st) = Some tt /\
  (forall n, snd (fst (for_each ds (flush accepts) st)) n = st n).
Proof.
  revert st. induction ds as [|x r IH]; intros st Hc; [auto|].
  cbn [for_each]. unfold bind. rewrite flush_run.
  rewrite (statements_clean x st) by (apply Hc; left; reflexivity).
  cbn [attempt fst snd].
  set (st2 := update st (dict_name x) (clear (st (dict_name x)))).
  assert (Heq : forall n, st2 n = st n).
  { intros n. unfold st2, update. destruct (String.eqb n (dict_name x)) eqn:E; [|reflexivity].
    apply String.eqb_eq in E. subst n. apply clear_clean, Hc. left. reflexivity. }
  destruct (IH st2) as (H1 & H2 & H3).
  { intros y Hy. rewrite Heq. apply Hc. right. exact Hy. }
  destruct (for_each r (flush accepts) st2) as [[sent' st''] res]. cbn [fst snd] in *.
  subst sent' res. repeat split. intros n. rewrite H3. apply Heq.
Qed.

(** X19. [save()] on an instance whose dictionaries have no dirty entry
    and no erased key sends the statement of the row and nothing else,
    fails only if that statement does, and leaves every dictionary as
    it was. *)
Theorem save_clean_instance (entry : Entry) (st : Store) :
  (forall x, In x (dictionaries entry) -> clean (st (dict_name x))) ->
  fst (fst (save accepts entry st)) = [SaveRow] /\
  snd (save accepts entry st) = (if accepts SaveRow then Some tt else None) /\
  (forall n, snd (fst (save accepts entry st)) n = st n).
Proof.
  intros Hc. rewrite save_run. destruct (flush_clean (dictionaries entry) st Hc)
    as (H1 & H2 & H3).
  destruct (accepts SaveRow); cbn [fst snd]; [rewrite H1, H2|]; auto.
Qed.

End RetryFacts.

Section Retry.
Import Flush.

Lemma flat_map_nil {A B : Type} (f : A -> list B) (l : list A) :
  (forall y, In y l -> f y = []) -> flat_map f l = [].
Proof.
  induction l as [|a r IH]; intros H; [reflexivity|].
  cbn [flat_map]. rewrite (H a (or_introl eq_refl)), IH; [reflexivity|].
  intros y Hy. apply H. right. exact Hy.
Qed.

Lemma NoDup_app_disjoint {A : Type} (l1 l2 : list A) (a : A) :
  NoDup (l1 ++ l2) -> In a l1 -> In a l2 -> False.
Proof.
  induction l1 as [|b l IH]; intros Hnd H1 H2; [destruct H1|].
  inversion Hnd as [|? ? Hb Hl]; subst. destruct H1 as [->|H1].
  - apply Hb. apply in_or_app. right. exact H2.
  - apply IH; assumption.
Qed.

(** After [save()], whatever happened: the dictionaries up to some point
    are cleared and all their statements were sent, the others are as
    they were. *)
Lemma save_outcome (accepts : Stmt -> bool) (entry : Entry) (st : Store) :
  NoDup (map dict_name (dictionaries entry)) ->
  exists cleared rest,
    dictionaries entry = (cleared ++ rest)%list /\
    (forall y, In y cleared ->
       snd (fst (save accepts entry st)) (dict_name y) = clear (st (dict_name y))) /\
    (forall y, In y rest ->
       snd (fst (save accepts entry st)) (dict_name y) = st (dict_name y)) /\
    incl (flat_map (fun y => statements y st) cleared) (fst (fst (save accepts entry st))) /\
    (snd (save accepts entry st) = Some tt -> rest = []).
Proof.
  intros Hnd. rewrite save_run. destruct (accepts SaveRow); cbn [fst snd].
  - pose proof (flush_all accepts (dictionaries entry) st Hnd) as H. cbv zeta in H.
    destruct H as [(Hr & Hs & _ & Hin & _)
                  |(Hr & done & x & todo & okp & s & after
                    & Hds & _ & _ & _ & Hs & _ & Hin & Hout)].
    + exists (dictionaries entry), []. rewrite app_nil_r. repeat split.
      * intros y Hy. apply Hin, in_map, Hy.
      * intros y [].
      * rewrite Hs. intros e He. right. exact He.
    + exists done, (x :: todo). split; [exact Hds|].
      assert (Hndd : NoDup (map dict_name done ++ map dict_name (x :: todo)))
        by (rewrite <- map_app, <- Hds; exact Hnd).
      repeat split.
      * intros y Hy. apply Hin, in_map, Hy.
      * intros y Hy. apply Hout. intros Hd.
        apply (NoDup_app_disjoint _ _ _ Hndd Hd). apply in_map, Hy.
      * rewrite Hs. intros e He. right. apply in_or_app. left. exact He.
      * rewrite Hr. discriminate.
  - exists [], (dictionaries entry). repeat split; auto; [intros y []|intros e []|discriminate].
Qed.

(** X20. After a [save()] that may have failed half-way, a second
    [save()] on a database that accepts every statement succeeds and
    leaves every dictionary without dirty entries and erased keys. It
    sends the statement of the row and then the statements, as of the
    state before the first call, of the dictionaries that the first
    call did not get to clear; the statements of the dictionaries that
    were cleared had all been sent by the first call. *)
Theorem retry_sends_the_rest (accepts : Stmt -> bool) (entry : Entry) (st : Store) :
  NoDup (map dict_name (dictionaries entry)) ->
  let first := save accepts entry st in
  let second := save Cases.accept_all entry (snd (fst first)) in
  snd second = Some tt /\
  (forall x, In x (dictionaries entry) -> clean (snd (fst second) (dict_name x))) /\
  exists cleared rest,
    dictionaries entry = (cleared ++ rest)%list /\
    fst (fst second) = SaveRow :: flat_map (fun x => statements x st) rest /\
    incl (flat_map (fun x => statements x st) cleared) (fst (fst first)) /\
    (snd first = Some tt -> rest = []).
Proof.
  intros Hnd. cbv zeta.
  destruct (save_outcome accepts entry st Hnd)
    as (cleared & rest & Hds & Hcl & Hrest & Hincl & Hok).
  set (st1 := snd (fst (save accepts entry st))) in *.
  pose proof (flush_all Cases.accept_all (dictionaries entry) st1 Hnd) as H. cbv zeta in H.
  destruct H as [(Hres & Hsent & _ & Hin & _)
                |(_ & done & x & todo & okp & s & after & _ & _ & Hs & _)];
    [|discriminate Hs].
  rewrite (save_run Cases.accept_all). cbn [Cases.accept_all fst snd].
  split; [exact Hres|]. split.
  - intros x Hx. rewrite (Hin _ (in_map dict_name _ _ Hx)).
    unfold clean, dirtyKeys, clear. cbn [entries erases]. split; [|reflexivity].
    induction (entries (st1 (dict_name x))) as [|kv r IH]; [reflexivity|exact IH].
  - exists cleared, rest. repeat split; auto.
    rewrite Hsent, Hds, flat_map_app. f_equal.
    rewrite (flat_map_nil _ cleared)
      by (intros y Hy; apply (statements_clear y st), Hcl, Hy).
    apply statements_ext. exact Hrest.
Qed.

End Retry.

(** X19, witness: a [Bag] whose dictionaries are clean, on a database
    that refuses every delete. *)
Lemma save_clean_instance_witness :
  fst (fst (Flush.save Sample.no_deletes Sample.Bag Cases.clean_store)) = [Flush.SaveRow] /\
  snd (Flush.save Sample.no_deletes Sample.Bag Cases.clean_store)
    = (if Sample.no_deletes Flush.SaveRow then Some tt else None) /\
  (forall n, snd (fst (Flush.save Sample.no_deletes Sample.Bag Cases.clean_store)) n
             = Cases.clean_store n).
Proof.
  apply (save_clean_instance Sample.no_deletes Sample.Bag Cases.clean_store).
  intros x _. split; reflexivity.
Defined.

(** X20, witness: the [Bag] whose first save stops at the delete for
    [items], saved again. *)
Lemma retry_sends_the_rest_witness :
  NoDup (map dict_name (dictionaries Sample.Bag)) /\
  (let first := Flush.save Sample.no_deletes Sample.Bag Sample.Bag_store in
   let second := Flush.save Cases.accept_all Sample.Bag (snd (fst first)) in
   snd second = Some tt /\
   (forall x, In x (dictionaries Sample.Bag) ->
      Flush.clean (snd (fst second) (dict_name x))) /\
   exists cleared rest,
     dictionaries Sample.Bag = (cleared ++ rest)%list /\
     fst (fst second)
       = Flush.SaveRow :: flat_map (fun x => Flush.statements x Sample.Bag_store) rest /\
     incl (flat_map (fun x => Flush.statements x Sample.Bag_store) cleared)
          (fst (fst first)) /\
     (snd first = Some tt -> rest = [])).
Proof.
  assert (Hnd : NoDup (map dict_name (dictionaries Sample.Bag))).
  { repeat constructor; simpl; intuition discriminate. }
  split; [exact Hnd|].
  exact (retry_sends_the_rest Sample.no_deletes Sample.Bag Sample.Bag_store Hnd).
Defined.
